(** * noteshare.space server: identifier checksum and note-posting controller

    A shallow embedding of [server/src/controllers/note/note.post.controller.ts]
    together with the collaborators it calls, and the properties of the
    identifier scheme, the note lifecycle, the rate limiter and the audit
    log that the specification states about them.

    JavaScript strings are sequences of UTF-16 code units; they are modelled
    as [list N], one number per code unit.  Unsigned machine integers are
    modelled in [N] with the bit operations of the source written out. *)

From Stdlib Require Import NArith ZArith List Lia Bool String Ascii.
From stdpp Require Import gmap list.

Local Open Scope N_scope.

(** ** JavaScript strings *)

Abbreviation jsstring := (list N).

(** Code units of an ASCII literal. *)
Fixpoint js (s : string) : jsstring :=
  match s with
  | EmptyString => []
  | String a s' => N_of_ascii a :: js s'
  end.

(** [s.slice(b, e)] for constant indices [0 <= b <= e]. *)
Definition slice (s : jsstring) (b e : nat) : jsstring :=
  firstn (e - b) (skipn b s).

(** [s.padStart(n, c)] for a one-character pad string [c]. *)
Definition padStart (s : jsstring) (n : nat) (c : N) : jsstring :=
  repeat c (n - length s) ++ s.

(** [a === b] on strings. *)
Definition str_eqb (a b : jsstring) : bool := bool_decide (a = b).

(** One hexadecimal digit, as [Number.prototype.toString(16)] prints it. *)
Definition hexDigit (d : N) : N :=
  if d <? 10 then 48 + d else 97 + (d - 10).

Fixpoint toHexAux (fuel : nat) (n : N) (acc : jsstring) : jsstring :=
  match fuel with
  | O => acc
  | S f =>
      let acc' := hexDigit (n mod 16) :: acc in
      if n / 16 =? 0 then acc' else toHexAux f (n / 16) acc'
  end.

(** [n.toString(16)] for a non-negative integer: no leading zeros, lowercase. *)
Definition toString16 (n : N) : jsstring :=
  toHexAux (S (N.to_nat (N.log2 n))) n [].

(** ** The [crc] package: [crc16] (CRC-16/ARC) over the UTF-8 bytes *)

Definition isHighSurrogate (c : N) : bool := (0xD800 <=? c) && (c <=? 0xDBFF).
Definition isLowSurrogate (c : N) : bool := (0xDC00 <=? c) && (c <=? 0xDFFF).

Definition utf8_cont (x : N) : N := N.lor 0x80 (N.land x 0x3F).

(** [Buffer.from(s)]: UTF-8 encoding; an unpaired surrogate becomes U+FFFD. *)
Fixpoint utf8 (s : jsstring) : list N :=
  match s with
  | [] => []
  | c :: rest =>
      if c <? 0x80 then c :: utf8 rest
      else if c <? 0x800 then
        N.lor 0xC0 (N.shiftr c 6) :: utf8_cont c :: utf8 rest
      else if isHighSurrogate c then
        match rest with
        | d :: rest' =>
            if isLowSurrogate d then
              let cp := 0x10000 + (c - 0xD800) * 0x400 + (d - 0xDC00) in
              N.lor 0xF0 (N.shiftr cp 18) :: utf8_cont (N.shiftr cp 12)
                :: utf8_cont (N.shiftr cp 6) :: utf8_cont cp :: utf8 rest'
            else 0xEF :: 0xBF :: 0xBD :: utf8 rest
        | [] => [0xEF; 0xBF; 0xBD]
        end
      else if isLowSurrogate c then 0xEF :: 0xBF :: 0xBD :: utf8 rest
      else
        N.lor 0xE0 (N.shiftr c 12) :: utf8_cont (N.shiftr c 6)
          :: utf8_cont c :: utf8 rest
  end.

(** The generator of the package's lookup table (reflected polynomial 0xA001). *)
Definition table_entry (i : N) : N :=
  N.iter 8 (fun c => if N.odd c then N.lxor (N.shiftr c 1) 0xA001
                     else N.shiftr c 1) i.

Definition TABLE : list N :=
  Eval vm_compute in map (fun i => table_entry (N.of_nat i)) (seq 0 256).

(** [crc = (TABLE[(crc ^ byte) & 0xff] ^ (crc >> 8)) & 0xffff] *)
Definition crc16_step (crc byte : N) : N :=
  N.land
    (N.lxor (nth (N.to_nat (N.land (N.lxor crc byte) 0xff)) TABLE 0)
            (N.shiftr crc 8))
    0xffff.

Definition crc16_bytes (buf : list N) (previous : N) : N :=
  fold_left crc16_step buf previous.

(** [crc16(s)] of the package, called as [crc(random)] in the controller. *)
Definition crc (s : jsstring) : N := crc16_bytes (utf8 s) 0.

(** ** [checkId] *)

(** [n.toString(16).padStart(4, "0")] *)
Definition hex4 (n : N) : jsstring := padStart (toString16 n) 4 48.

Definition checkId (id : jsstring) : bool :=
  if negb (length id =? 16)%nat then false
  else
    let random := slice id 0 12 in
    let checksum := slice id 12 16 in
    let computedChecksum := hex4 (crc random) in
    str_eqb computedChecksum checksum.

(** Lowercase hexadecimal characters, ['0'..'9'] and ['a'..'f']. *)
Definition isLowerHex (c : N) : bool :=
  ((48 <=? c) && (c <=? 57)) || ((97 <=? c) && (c <=? 102)).

(** The identifier built from a 12-character random portion. *)
Definition makeId (random : jsstring) : jsstring := random ++ hex4 (crc random).

(** ** [checkId] applied to any value *)

(** The values a caller can hand to [checkId] at run time, where the
    parameter's type is not checked. *)
Inductive JsValue :=
| JUndefined
| JNull
| JBoolean (b : bool)
| JNumber (n : Z)
| JString (s : jsstring).

(** A call returns a value or throws. *)
Inductive Outcome (A : Type) :=
| Returned (a : A)
| Thrown (err : jsstring).

Arguments Returned {A} a.
Arguments Thrown {A} err.

(** [v.length]: reading a property of [undefined] or [null] throws a
    TypeError; a string has its length; a number or a boolean has no such
    property, and the read gives [undefined], here [None]. *)
Definition getLength (v : JsValue) : Outcome (option nat) :=
  match v with
  | JUndefined | JNull => Thrown (js "TypeError")
  | JString s => Returned (Some (length s))
  | JBoolean _ | JNumber _ => Returned None
  end.

(** [v.slice(b, e)]: a string is sliced; on any other value the call
    throws a TypeError, the value having no [slice] method. *)
Definition callSlice (v : JsValue) (b e : nat) : Outcome jsstring :=
  match v with
  | JString s => Returned (slice s b e)
  | _ => Thrown (js "TypeError")
  end.

(** [checkId], statement by statement, with the exceptions its property
    reads and method calls can throw.  Once [id] is known to have a
    [slice] method the remaining calls are on a string and a number:
    [crc16], [toString(16)] and [padStart] return on every such argument,
    and [===] never throws. *)
Definition checkIdE (id : JsValue) : Outcome bool :=
  match getLength id with
  | Thrown err => Thrown err
  | Returned len =>
      (* check length *)
      if negb (bool_decide (len = Some 16%nat)) then Returned false
      else
        (* extract the random number and the checksum *)
        match callSlice id 0 12 with
        | Thrown err => Thrown err
        | Returned random =>
            match callSlice id 12 16 with
            | Thrown err => Thrown err
            | Returned checksum =>
                (* compute the CRC of the random number *)
                let computedChecksum := hex4 (crc random) in
                (* compare the computed checksum with the one in the id *)
                Returned (str_eqb computedChecksum checksum)
            end
        end
  end.

(** The digits of a 16-bit number, most significant first. *)
Definition digits4 (x : N) : jsstring :=
  [hexDigit (x / 4096); hexDigit (x / 256 mod 16);
   hexDigit (x / 16 mod 16); hexDigit (x mod 16)].

(** The numbers below [n], largest first. *)
Definition below (n : N) : list N :=
  N.recursion [] (fun i acc => i :: acc) n.


(** Modelled from the spec: the Identifier Codec's [validate] of section 4.1,
    which the read path applies to the requested id; the note-reading
    controller and its validator are not part of the sources at hand.  An
    identifier is exactly 16 characters of lowercase hexadecimal whose
    trailing 4 characters are the checksum of the first 12. *)
Definition validate (id : jsstring) : bool :=
  (length id =? 16)%nat
  && forallb isLowerHex id
  && str_eqb (hex4 (crc (slice id 0 12))) (slice id 12 16).

(** * The note-posting controller *)

(** ** Requests, notes and audit events *)

(** The JSON body of [POST /api/note]; the fields carry the types declared
    in [NotePostRequest], [None] standing for an absent ([undefined]) field. *)
Record NotePostRequest := {
  ciphertext : option jsstring;
  hmac : option jsstring;
  user_id : option jsstring;
  plugin_version : option jsstring;
  crypto_version : option jsstring;
}.

(** [new NotePostRequest()] followed by [Object.assign(notePostRequest, body)]:
    only [crypto_version] has an initialiser, ["v1"]. *)
Definition assignBody (body : NotePostRequest) : NotePostRequest :=
  {| ciphertext := ciphertext body;
     hmac := hmac body;
     user_id := user_id body;
     plugin_version := plugin_version body;
     crypto_version :=
       match crypto_version body with
       | Some v => Some v
       | None => Some (js "v1")
       end |}.

(** A request as the controller sees it: the connecting address that
    [getConnectingIp(req)] extracts, and [req.body]. *)
Record Request := {
  connectingIp : jsstring;
  body : NotePostRequest;
}.

(** The [EncryptedNote] rows of the database; times are milliseconds since
    the epoch. *)
Record EncryptedNote := {
  id : jsstring;
  insert_time : Z;
  expire_time : Z;
  note_ciphertext : jsstring;
  note_hmac : jsstring;
  note_crypto_version : jsstring;
}.

(** The object the controller hands to [createNote]. *)
Record NewNote := {
  new_ciphertext : jsstring;
  new_hmac : jsstring;
  new_expire_time : Z;
  new_crypto_version : jsstring;
}.

Inductive EventType := READ | WRITE | PURGE.

#[global] Instance EventType_eq_dec : EqDecision EventType.
Proof. solve_decision. Defined.

(** The event object the controller fills in ([WriteEvent]); read and purge
    events use the same fields. *)
Record Event := {
  success : bool;
  host : option jsstring;
  ev_user_id : option jsstring;
  user_plugin_version : option jsstring;
  note_id : option jsstring;
  size_bytes : option nat;
  expire_window_days : option Z;
  error : option jsstring;
}.

Record AuditEvent := {
  type : EventType;
  event : Event;
}.

(** What the handler does with [res] and [next]. *)
Inductive Response :=
| Send (code : N) (text : jsstring)               (* res.status(code).send(text) *)
| JsonCreated (view_url : jsstring) (expires : Z) (* res.json({view_url, expire_time}) *)
| JsonNote (note : EncryptedNote)                 (* res.json(note) *)
| Next (err : jsstring).                          (* next(err) *)

(** The status code the client observes; an error passed to [next] is
    answered by the error middleware with a 5xx status. *)
Definition status (r : Response) : N :=
  match r with
  | Send code _ => code
  | JsonCreated _ _ => 200
  | JsonNote _ => 200
  | Next _ => 500
  end.

Inductive OpClass := ReadOp | WriteOp.

#[global] Instance OpClass_eq_dec : EqDecision OpClass.
Proof. solve_decision. Defined.

#[global] Instance OpClass_countable : Countable OpClass.
Proof.
  refine (inj_countable' (fun c => match c with ReadOp => false | WriteOp => true end)
                         (fun b : bool => if b then WriteOp else ReadOp) _).
  intros []; reflexivity.
Defined.

(** The state of the service: the note table, the tombstones of purged
    ids, the audit log and the rate limiter's windows (start, hits). *)
Record Server := {
  notes : gmap jsstring EncryptedNote;
  tombstones : gset jsstring;
  events : list AuditEvent;
  windows : gmap (OpClass * jsstring) (Z * nat);
}.

(** ** Collaborators outside the controller's source *)

(** Library predicates and configuration the controller depends on:
    the validator.js predicates behind [@IsBase64] and [@IsHexadecimal],
    the rendering of a validation error by [toString], the [FRONTEND_URL]
    environment variable, and the rate limits of the environment file. *)
Class Platform := {
  isBase64 : jsstring -> bool;
  isHexadecimal : jsstring -> bool;
  validationErrorToString : list jsstring -> jsstring;
  FRONTEND_URL : jsstring;
  budget : OpClass -> nat;
  windowMs : Z;
}.

(** What the storage layer does during one call: a persistence error, if
    any, its clock, and the random 12-character portions drawn for the
    successive attempts at a fresh identifier. *)
Record Storage := {
  fault : option jsstring;
  clock : Z;
  randoms : list jsstring;
}.

Definition isDigit (c : N) : bool := (48 <=? c) && (c <=? 57).

(** Consumes [[0-9]+] from the front of [s] and returns what is left. *)
Fixpoint skipDigits (s : jsstring) : jsstring :=
  match s with
  | c :: rest => if isDigit c then skipDigits rest else s
  | [] => []
  end.

Definition digits1 (s : jsstring) : option jsstring :=
  match s with
  | c :: rest => if isDigit c then Some (skipDigits rest) else None
  | [] => None
  end.

(** [^[0-9]+\.[0-9]+\.[0-9]+$] *)
Definition matchesPluginVersion (s : jsstring) : bool :=
  match digits1 s with
  | Some (46 :: s1) =>
      match digits1 s1 with
      | Some (46 :: s2) =>
          match digits1 s2 with
          | Some [] => true
          | _ => false
          end
      | _ => false
      end
  | _ => false
  end.

(** [^v[0-9]+$] *)
Definition matchesCryptoVersion (s : jsstring) : bool :=
  match s with
  | 118 :: rest =>
      match digits1 rest with
      | Some [] => true
      | _ => false
      end
  | _ => false
  end.

(** [@IsNotEmpty()]: the value is neither [undefined] nor the empty string. *)
Definition isNotEmpty (v : option jsstring) : bool :=
  match v with
  | Some (_ :: _) => true
  | _ => false
  end.

(** A decorator that needs a string fails on an absent value. *)
Definition holds (p : jsstring -> bool) (v : option jsstring) : bool :=
  match v with
  | Some s => p s
  | None => false
  end.

(** [@ValidateIf((o) => o.field != null)]: the decorators of the property
    apply only when the field is present. *)
Definition validateIfPresent (p : jsstring -> bool) (v : option jsstring) : bool :=
  match v with
  | Some s => p s
  | None => true
  end.

(** JavaScript truthiness of an optional string. *)
Definition truthy (v : option jsstring) : bool :=
  match v with
  | Some (_ :: _) => true
  | _ => false
  end.

Definition EXPIRE_WINDOW_DAYS : Z := 30.

(** Modelled from the spec: [addDays] of the [util] module, which is not
    among the sources; the expiry time is the creation timestamp plus the
    retention window, in days of 86 400 000 milliseconds. *)
Definition addDays (date : Z) (days : Z) : Z := (date + days * 86400000)%Z.

(** Modelled from the spec: [EventLogger.writeEvent], whose module is not
    among the sources; the audit log is append-only and [record] adds one
    entry, here of type WRITE. *)
Definition writeEvent (e : Event) (log : list AuditEvent) : list AuditEvent :=
  log ++ [{| type := WRITE; event := e |}].

(** Modelled from the spec: [createNote] of the note DAO, which is not among
    the sources.  [create] assigns a fresh identifier through the Identifier
    Codec, retrying on a uniqueness conflict for the bounded number of
    attempts the storage layer makes and failing as IdentifierExhausted
    after them; a persistence error propagates as a failure; otherwise the
    note is persisted and returned with the server-assigned timestamp. *)
Definition createNote (note : NewNote) (db : Storage)
    (table : gmap jsstring EncryptedNote)
    : (jsstring + EncryptedNote) * gmap jsstring EncryptedNote :=
  match fault db with
  | Some err => (inl err, table)
  | None =>
      match List.find (fun k => bool_decide (table !! k = None))
                      (map makeId (randoms db)) with
      | None => (inl (js "IdentifierExhausted"), table)
      | Some k =>
          let saved :=
            {| id := k;
               insert_time := clock db;
               expire_time := new_expire_time note;
               note_ciphertext := new_ciphertext note;
               note_hmac := new_hmac note;
               note_crypto_version := new_crypto_version note |} in
          (inr saved, <[k := saved]> table)
      end
  end.

Definition withError (e : Event) (msg : jsstring) : Event :=
  {| success := success e; host := host e; ev_user_id := ev_user_id e;
     user_plugin_version := user_plugin_version e; note_id := note_id e;
     size_bytes := size_bytes e; expire_window_days := expire_window_days e;
     error := Some msg |}.

Definition withEvents (st : Server) (log : list AuditEvent) : Server :=
  {| notes := notes st; tombstones := tombstones st; events := log;
     windows := windows st |}.

Definition withNotes (st : Server) (table : gmap jsstring EncryptedNote) : Server :=
  {| notes := table; tombstones := tombstones st; events := events st;
     windows := windows st |}.

Definition withWindows (st : Server) (w : gmap (OpClass * jsstring) (Z * nat)) : Server :=
  {| notes := notes st; tombstones := tombstones st; events := events st;
     windows := w |}.

Section Controller.
Context `{Platform}.

(** [validateOrReject]: the names of the properties whose decorators
    fail; the promise rejects when there is one. *)
Definition failedProperties (r : NotePostRequest) : list jsstring :=
  (if holds isBase64 (ciphertext r) && isNotEmpty (ciphertext r)
   then [] else [js "ciphertext"])
  ++ (if holds isBase64 (hmac r) && isNotEmpty (hmac r)
      then [] else [js "hmac"])
  ++ (if validateIfPresent isHexadecimal (user_id r)
      then [] else [js "user_id"])
  ++ (if validateIfPresent matchesPluginVersion (plugin_version r)
      then [] else [js "plugin_version"])
  ++ (if holds matchesCryptoVersion (crypto_version r)
      then [] else [js "crypto_version"]).

Definition validateOrReject (r : NotePostRequest) : option (list jsstring) :=
  match failedProperties r with
  | [] => None
  | errs => Some errs
  end.

(** [postNoteController(req, res, next)], run at time [now] against the
    storage behaviour [db]: the response and the state it leaves. *)
Definition postNoteController (req : Request) (now : Z) (db : Storage)
    (st : Server) : Response * Server :=
  let event :=
    {| success := false;
       host := Some (connectingIp req);
       ev_user_id := user_id (body req);
       user_plugin_version := plugin_version (body req);
       note_id := None; size_bytes := None; expire_window_days := None;
       error := None |} in
  (* Validate request body *)
  let notePostRequest := assignBody (body req) in
  match validateOrReject notePostRequest with
  | Some err =>
      let text := validationErrorToString err in
      (Send 400 text, withEvents st (writeEvent (withError event text) (events st)))
  | None =>
      (* Validate user ID, if present *)
      if truthy (user_id notePostRequest)
         && negb (checkId (default [] (user_id notePostRequest)))
      then
        let text := js "Invalid user id (checksum failed)" in
        (Send 400 text, withEvents st (writeEvent (withError event text) (events st)))
      else
        (* Create note object *)
        let note :=
          {| new_ciphertext := default [] (ciphertext notePostRequest);
             new_hmac := default [] (hmac notePostRequest);
             new_expire_time := addDays now EXPIRE_WINDOW_DAYS;
             new_crypto_version := default [] (crypto_version notePostRequest) |} in
        (* Store note object *)
        match createNote note db (notes st) with
        | (inr savedNote, table) =>
            let event' :=
              {| success := true;
                 host := host event;
                 ev_user_id := ev_user_id event;
                 user_plugin_version := user_plugin_version event;
                 note_id := Some (id savedNote);
                 size_bytes :=
                   Some (length (note_ciphertext savedNote)
                         + length (note_hmac savedNote))%nat;
                 expire_window_days := Some EXPIRE_WINDOW_DAYS;
                 error := None |} in
            (JsonCreated (FRONTEND_URL ++ js "/note/" ++ id savedNote)
                         (expire_time savedNote),
             withEvents (withNotes st table) (writeEvent event' (events st)))
        | (inl err, table) =>
            (Next err,
             withEvents (withNotes st table)
                        (writeEvent (withError event err) (events st)))
        end
  end.

End Controller.

(** * The read path, the expiry sweeper and the rate limiter *)

Inductive ReadResult :=
| Found (note : EncryptedNote)
| Gone
| NotFound
| StorageFailure (err : jsstring).

(** Modelled from the spec: [read] of the Note Store (section 4.2); the
    note DAO and the note-reading controller are not among the sources.
    The id is validated first, a syntactically invalid id being NotFound;
    a present note is returned whether or not it has expired, because only
    the sweeper deletes; an absent id is Gone when it has a tombstone and
    NotFound otherwise; a persistence error propagates. *)
Definition read (k : jsstring) (now : Z) (db : Storage) (st : Server) : ReadResult :=
  if negb (validate k) then NotFound
  else
    match fault db with
    | Some err => StorageFailure err
    | None =>
        match notes st !! k with
        | Some note =>
            if (now <? expire_time note)%Z then Found note
            else Found note (* expired but not yet swept: still served *)
        | None =>
            if bool_decide (k ∈ tombstones st) then Gone else NotFound
        end
    end.

Definition readEvent (ok : bool) (client k : jsstring) (size : option nat)
    (err : option jsstring) : AuditEvent :=
  {| type := READ;
     event := {| success := ok; host := Some client; ev_user_id := None;
                 user_plugin_version := None; note_id := Some k;
                 size_bytes := size; expire_window_days := None;
                 error := err |} |}.

(** Modelled from the spec: the controller of [GET /api/note/:id] (sections
    6 and 7), not among the sources: 200 with the note, 410 for a purged id,
    404 for an unknown or invalid id, a 5xx for a storage failure, and one
    READ event per request, failed unless the note is served. *)
Definition getNoteController (k client : jsstring) (now : Z) (db : Storage)
    (st : Server) : Response * Server :=
  match read k now db st with
  | Found note =>
      (JsonNote note,
       withEvents st
         (events st ++
          [readEvent true client k
             (Some (length (note_ciphertext note) + length (note_hmac note))%nat)
             None]))
  | Gone =>
      (Send 410 (js "Note expired"),
       withEvents st
         (events st ++ [readEvent false client k None (Some (js "Note expired"))]))
  | NotFound =>
      (Send 404 (js "Note not found"),
       withEvents st
         (events st ++ [readEvent false client k None (Some (js "Note not found"))]))
  | StorageFailure err =>
      (Next err,
       withEvents st (events st ++ [readEvent false client k None (Some err)]))
  end.

Definition purgeEvent (entry : jsstring * EncryptedNote) : AuditEvent :=
  {| type := PURGE;
     event := {| success := true; host := None; ev_user_id := None;
                 user_plugin_version := None; note_id := Some (fst entry);
                 size_bytes :=
                   Some (length (note_ciphertext (snd entry))
                         + length (note_hmac (snd entry)))%nat;
                 expire_window_days := None; error := None |} |}.

Definition expired (now : Z) (entry : jsstring * EncryptedNote) : Prop :=
  (expire_time (snd entry) <= now)%Z.

#[global] Instance expired_dec now entry : Decision (expired now entry).
Proof. unfold expired. apply _. Defined.

(** Modelled from the spec: [deleteExpiredNotes] of the sweeper task
    (sections 4.2 and 4.3), not among the sources: it selects the notes whose
    [expire_time] is at or before the current time, deletes them, writes a
    tombstone per deleted id, emits one PURGE event per deleted note and
    returns the number deleted; a persistence error propagates and leaves
    the state as it was. *)
Definition deleteExpiredNotes (now : Z) (db : Storage) (st : Server)
    : (jsstring + nat) * Server :=
  match fault db with
  | Some err => (inl err, st)
  | None =>
      let purged := filter (expired now) (notes st) in
      (inr (size purged),
       {| notes := filter (fun entry => ~ expired now entry) (notes st);
          tombstones := tombstones st ∪ dom purged;
          events := events st ++ map purgeEvent (map_to_list purged);
          windows := windows st |})
  end.

Inductive ApiCall :=
| PostNote (req : Request)
| GetNote (k client : jsstring).

Definition opClass (c : ApiCall) : OpClass :=
  match c with PostNote _ => WriteOp | GetNote _ _ => ReadOp end.

Definition clientOf (c : ApiCall) : jsstring :=
  match c with PostNote req => connectingIp req | GetNote _ client => client end.

(** The storage layer answers the call: it has no fault and, for a call
    that creates a note, a random portion to draw. *)
Definition storageAnswers (call : ApiCall * Z * Storage) : Prop :=
  fault call.2 = None
  /\ match call.1.1 with
     | PostNote _ => randoms call.2 <> []
     | GetNote _ _ => True
     end.

(** The identifier the storage layer tries first during a call that
    creates a note. *)
Definition drawnId (call : ApiCall * Z * Storage) : list jsstring :=
  match call.1.1 with
  | PostNote _ =>
      match randoms call.2 with
      | r :: _ => [makeId r]
      | [] => []
      end
  | GetNote _ _ => []
  end.

(** The identifiers drawn during the calls are unused: distinct from one
    another and absent from the table. *)
Definition freshDraws (table : gmap jsstring EncryptedNote)
    (calls : list (ApiCall * Z * Storage)) : Prop :=
  NoDup (concat (map drawnId calls))
  /\ forall k, k ∈ concat (map drawnId calls) -> table !! k = None.

Section Endpoints.
Context `{Platform}.

(** Modelled from the spec: the rate limiter (section 4.4), configured
    outside the sources: a fixed budget per window, per operation class
    and per client address; the window of a client starts at its first
    request and its state resets once the window has elapsed. *)
Definition allow (client : jsstring) (cls : OpClass) (now : Z)
    (w : gmap (OpClass * jsstring) (Z * nat))
    : bool * gmap (OpClass * jsstring) (Z * nat) :=
  let fresh :=
    if (0 <? budget cls)%nat then (true, <[(cls, client) := (now, 1%nat)]> w)
    else (false, <[(cls, client) := (now, 0%nat)]> w) in
  match w !! (cls, client) with
  | Some (start, hits) =>
      if (now <? start + windowMs)%Z then
        if (hits <? budget cls)%nat
        then (true, <[(cls, client) := (start, S hits)]> w)
        else (false, w)
      else fresh
  | None => fresh
  end.

Definition controller (c : ApiCall) (now : Z) (db : Storage) (st : Server)
    : Response * Server :=
  match c with
  | PostNote req => postNoteController req now db st
  | GetNote k client => getNoteController k client now db st
  end.

(** A rejection is answered 429; it is logged when the subject id is
    known, which is the case for a read. *)
Definition reject (c : ApiCall) (st : Server) : Response * Server :=
  let text := js "Too many requests" in
  match c with
  | PostNote _ => (Send 429 text, st)
  | GetNote k client =>
      (Send 429 text,
       withEvents st (events st ++ [readEvent false client k None (Some text)]))
  end.

(** An endpoint: the limiter, then the controller. *)
Definition handle (c : ApiCall) (now : Z) (db : Storage) (st : Server)
    : Response * Server :=
  let (ok, w) := allow (clientOf c) (opClass c) now (windows st) in
  if ok then controller c now db (withWindows st w)
  else reject c (withWindows st w).

(** A sequence of calls, each with its arrival time and the behaviour of
    the storage layer during it. *)
Fixpoint serve (calls : list (ApiCall * Z * Storage)) (st : Server)
    : list Response * Server :=
  match calls with
  | [] => ([], st)
  | (c, now, db) :: rest =>
      let (r, st1) := handle c now db st in
      let (rs, st2) := serve rest st1 in
      (r :: rs, st2)
  end.

(** A request is well formed for the note table it meets when it is one
    its controller accepts: a POST whose body passes [validateOrReject] and
    whose [user_id], if there is one, passes the checksum test of the
    controller; a GET that names, by a valid id, a note of the table. *)
Definition wellFormedCall (table : gmap jsstring EncryptedNote) (c : ApiCall)
    : Prop :=
  match c with
  | PostNote req =>
      validateOrReject (assignBody (body req)) = None
      /\ truthy (user_id (assignBody (body req)))
         && negb (checkId (default [] (user_id (assignBody (body req))))) = false
  | GetNote k _ => validate k = true /\ is_Some (table !! k)
  end.

End Endpoints.

(** The note table gained exactly one row, under an id that was free. *)
Definition persisted (st st' : Server) : Prop :=
  exists k note, notes st !! k = None /\ notes st' = <[k := note]> (notes st).

(** The events of a given type about a given note id. *)
Definition eventsAbout (ty : EventType) (k : jsstring) (log : list AuditEvent)
    : list AuditEvent :=
  List.filter
    (fun a => bool_decide (type a = ty /\ note_id (event a) = Some k)) log.

(** * Fixtures *)

(** The note of the integration test: the base64 encodings of
    ["sample_ciphertext"] and ["sample_hmac"]. *)
Definition testNote : NotePostRequest :=
  {| ciphertext := Some (js "c2FtcGxlX2NpcGhlcnRleHQ=");
     hmac := Some (js "c2FtcGxlX2htYWM=");
     user_id := None;
     plugin_version := None;
     crypto_version := None |}.

Definition isHexDigit (c : N) : bool :=
  isDigit c || ((97 <=? c) && (c <=? 102)) || ((65 <=? c) && (c <=? 70)).

Definition isBase64Char (c : N) : bool :=
  isDigit c || ((97 <=? c) && (c <=? 122)) || ((65 <=? c) && (c <=? 90))
  || (c =? 43) || (c =? 47) || (c =? 61).

(** A platform to run the controller on: simple stand-ins for the library
    predicates, and a budget of 2 requests per window of 100 ms for each
    operation class. *)
Definition testPlatform : Platform :=
  {| isBase64 := fun s => forallb isBase64Char s && (length s mod 4 =? 0)%nat;
     isHexadecimal := fun s => forallb isHexDigit s && negb (length s =? 0)%nat;
     validationErrorToString := fun props => js "Invalid: " ++ concat props;
     FRONTEND_URL := js "http://localhost:3000";
     budget := fun _ => 2%nat;
     windowMs := 100 |}.

Definition emptyServer : Server :=
  {| notes := ∅; tombstones := ∅; events := []; windows := ∅ |}.

Definition healthy (random : jsstring) : Storage :=
  {| fault := None; clock := 5; randoms := [random] |}.

Definition testRequest : Request :=
  {| connectingIp := js "127.0.0.1"; body := testNote |}.

(** A request whose [user_id] has a wrong checksum. *)
Definition badUserRequest : Request :=
  {| connectingIp := js "127.0.0.1";
     body := {| ciphertext := ciphertext testNote; hmac := hmac testNote;
                user_id := Some (js "0000000000004687");
                plugin_version := None; crypto_version := None |} |}.

(** A stored note that expired at the epoch, as in the clean-up test. *)
Definition expiredNote : EncryptedNote :=
  {| id := js "0000000000004686";
     insert_time := 0;
     expire_time := 0;
     note_ciphertext := js "c2FtcGxlX2NpcGhlcnRleHQ=";
     note_hmac := js "c2FtcGxlX2htYWM=";
     note_crypto_version := js "v1" |}.

Definition expiredServer : Server :=
  {| notes := {[ js "0000000000004686" := expiredNote ]};
     tombstones := ∅; events := []; windows := ∅ |}.

(** Three posts from one client within one window. *)
Definition testBurst : list (ApiCall * Z * Storage) :=
  [(PostNote testRequest, 10%Z, healthy (js "0123456789ab"));
   (PostNote testRequest, 11%Z, healthy (js "123456789abc"));
   (PostNote testRequest, 12%Z, healthy (js "23456789abcd"))].

(** The WRITE event a successful post of the test note leaves. *)
Definition testWriteEvent : Event :=
  {| success := true;
     host := Some (js "127.0.0.1");
     ev_user_id := None;
     user_plugin_version := None;
     note_id := Some (makeId (js "0123456789ab"));
     size_bytes := Some 40%nat;
     expire_window_days := Some 30%Z;
     error := None |}.

(** * The Markdown extensions *)

(** ** String primitives and regular expressions *)

(** [\w] without the unicode flag. *)
Definition isWord (c : N) : bool :=
  isDigit c || ((65 <=? c) && (c <=? 90)) || ((97 <=? c) && (c <=? 122))
  || (c =? 95).

(** The line terminators, which [.] does not match. *)
Definition isLineTerminator (c : N) : bool :=
  (c =? 0x0A) || (c =? 0x0D) || (c =? 0x2028) || (c =? 0x2029).

(** [\s], and the characters [trim] strips: white space and line
    terminators. *)
Definition isSpace (c : N) : bool :=
  ((0x09 <=? c) && (c <=? 0x0D)) || (c =? 0x20) || (c =? 0xA0)
  || (c =? 0x1680) || ((0x2000 <=? c) && (c <=? 0x200A))
  || (c =? 0x2028) || (c =? 0x2029) || (c =? 0x202F) || (c =? 0x205F)
  || (c =? 0x3000) || (c =? 0xFEFF).

Fixpoint trimStart (s : jsstring) : jsstring :=
  match s with
  | c :: rest => if isSpace c then trimStart rest else s
  | [] => []
  end.

Definition trimEnd (s : jsstring) : jsstring := rev (trimStart (rev s)).

(** [s.trim()] *)
Definition trim (s : jsstring) : jsstring := trimEnd (trimStart s).

Module RegExp.

(** The pieces the patterns of the extensions are made of: a literal
    character, a character class, a class repeated one or more times
    (greedy [+] or lazy [+?]), and the two ends of the capture group. *)
Inductive Item :=
| Lit (c : N)
| Class (p : N -> bool)
| Plus (greedy : bool) (p : N -> bool)
| Open
| Close.

(** A match in progress: the text matched so far and where in it the
    capture group begins and ends. *)
Record Match := {
  matched : jsstring;
  gstart : nat;
  gend : nat;
}.

Definition init : Match := {| matched := []; gstart := 0; gend := 0 |}.

Definition push (x : N) (m : Match) : Match :=
  {| matched := matched m ++ [x]; gstart := gstart m; gend := gend m |}.

Definition openGroup (m : Match) : Match :=
  {| matched := matched m; gstart := length (matched m); gend := gend m |}.

Definition closeGroup (m : Match) : Match :=
  {| matched := matched m; gstart := gstart m; gend := length (matched m) |}.

(** The match after the characters of [w] have been taken in turn. *)
Definition pushes (w : jsstring) (m : Match) : Match :=
  fold_left (fun acc x => push x acc) w m.

(** [match[1]] *)
Definition capture (m : Match) : jsstring := slice (matched m) (gstart m) (gend m).

(** A repetition that has already taken one character, followed by the
    rest of the pattern [k]: the greedy one first tries to take one more
    character and falls back to [k]; the lazy one first tries [k]. *)
Fixpoint plusMore (greedy : bool) (p : N -> bool)
    (k : jsstring -> Match -> option Match) (s : jsstring) (m : Match)
    : option Match :=
  if greedy then
    match
      match s with
      | x :: rest => if p x then plusMore greedy p k rest (push x m) else None
      | [] => None
      end
    with
    | Some r => Some r
    | None => k s m
    end
  else
    match k s m with
    | Some r => Some r
    | None =>
        match s with
        | x :: rest => if p x then plusMore greedy p k rest (push x m) else None
        | [] => None
        end
    end.

(** Backtracking match of a pattern at the front of [s]. *)
Fixpoint run (r : list Item) : jsstring -> Match -> option Match :=
  match r with
  | [] => fun _ m => Some m
  | Lit c :: r' =>
      fun s m =>
        match s with
        | x :: rest => if x =? c then run r' rest (push x m) else None
        | [] => None
        end
  | Class p :: r' =>
      fun s m =>
        match s with
        | x :: rest => if p x then run r' rest (push x m) else None
        | [] => None
        end
  | Plus greedy p :: r' =>
      fun s m =>
        match s with
        | x :: rest =>
            if p x then plusMore greedy p (run r') rest (push x m) else None
        | [] => None
        end
  | Open :: r' => fun s m => run r' s (openGroup m)
  | Close :: r' => fun s m => run r' s (closeGroup m)
  end.

(** [s.match(/^.../)] for a pattern anchored at the start. *)
Definition exec (r : list Item) (s : jsstring) : option Match := run r s init.

(** [s.match(/.../)?.index] for a pattern that is not anchored: the first
    index at which it matches. *)
Fixpoint search (r : list Item) (s : jsstring) (i : nat) : option nat :=
  match run r s init with
  | Some _ => Some i
  | None =>
      match s with
      | _ :: rest => search r rest (S i)
      | [] => None
      end
  end.

(** Whether [s] begins with the character [d] twice, the closing
    delimiter of a link or of a highlight. *)
Definition closesWith (d : N) (s : jsstring) : bool :=
  match s with
  | x :: y :: _ => (x =? d) && (y =? d)
  | _ => false
  end.

(** The match of [( ... )dd] once the group has taken [content]. *)
Definition finish (d : N) (m0 : Match) (content : jsstring) : Match :=
  push d (push d (closeGroup (pushes content (openGroup m0)))).

(** The match of [( ... )c] once the group has taken [content]. *)
Definition finish1 (c : N) (m0 : Match) (content : jsstring) : Match :=
  push c (closeGroup (pushes content (openGroup m0))).

(** No closing delimiter begins inside [content], after its first
    character: [content] is the shortest the group can take. *)
Definition shortest (d : N) (content rest : jsstring) : Prop :=
  forall a1 a2, content = a1 ++ a2 -> a1 <> [] -> a2 <> [] ->
                closesWith d (a2 ++ d :: d :: rest) = false.

End RegExp.

Module Marked.

(** The token a tokenizer returns; [None] stands for [false]. *)
Record Token := {
  type : jsstring;
  raw : jsstring;
  text : jsstring;
}.

Record Extension := {
  name : jsstring;
  level : jsstring;
  start : jsstring -> option nat;
  tokenizer : jsstring -> option Token;
}.

Definition token (ty : jsstring) (m : RegExp.Match) : Token :=
  {| type := ty;
     raw := trim (RegExp.matched m);
     text := trim (RegExp.capture m) |}.

End Marked.

Module InternalLinkExtension.
Import RegExp.

(** [/^\[\[/] *)
Definition startPattern : list Item := [Lit 91; Lit 91].

Definition start (src : jsstring) : option nat :=
  match exec startPattern src with
  | Some _ => Some 0%nat
  | None => None
  end.

(** [/^\[\[([^\n]+?)]\]/] *)
Definition pattern : list Item :=
  [Lit 91; Lit 91; Open; Plus false (fun c => negb (c =? 10)); Close;
   Lit 93; Lit 93].

Definition tokenizer (src : jsstring) : option Marked.Token :=
  match exec pattern src with
  | Some m => Some (Marked.token (js "internal-link") m)
  | None => None
  end.

End InternalLinkExtension.

Module InternalEmbedExtension.
Import RegExp.

(** [/^!\[\[/] *)
Definition startPattern : list Item := [Lit 33; Lit 91; Lit 91].

Definition start (src : jsstring) : option nat :=
  match exec startPattern src with
  | Some _ => Some 0%nat
  | None => None
  end.

(** [/^!\[\[([^\n]+?)]\]/] *)
Definition pattern : list Item :=
  [Lit 33; Lit 91; Lit 91; Open; Plus false (fun c => negb (c =? 10)); Close;
   Lit 93; Lit 93].

Definition tokenizer (src : jsstring) : option Marked.Token :=
  match exec pattern src with
  | Some m => Some (Marked.token (js "internal-embed") m)
  | None => None
  end.

End InternalEmbedExtension.

Module TagExtension.
Import RegExp.

(** [/#/] *)
Definition startPattern : list Item := [Lit 35].

Definition start (src : jsstring) : option nat := search startPattern src 0.

(** [/^#([\w/]+)[\W\s]/] *)
Definition pattern : list Item :=
  [Lit 35; Open; Plus true (fun c => isWord c || (c =? 47)); Close;
   Class (fun c => negb (isWord c) || isSpace c)].

Definition tokenizer (src : jsstring) : option Marked.Token :=
  match exec pattern src with
  | Some m => Some (Marked.token (js "tag") m)
  | None => None
  end.

End TagExtension.

Module HighlightExtension.
Import RegExp.

(** [/==/] *)
Definition startPattern : list Item := [Lit 61; Lit 61].

Definition start (src : jsstring) : option nat := search startPattern src 0.

(** [/^==(.+)==/] *)
Definition pattern : list Item :=
  [Lit 61; Lit 61; Open; Plus true (fun c => negb (isLineTerminator c)); Close;
   Lit 61; Lit 61].

Definition tokenizer (src : jsstring) : option Marked.Token :=
  match exec pattern src with
  | Some m => Some (Marked.token (js "highlight") m)
  | None => None
  end.

End HighlightExtension.

(** The default export: the four extensions in the order of the array. *)
Definition extensions : list Marked.Extension :=
  [ {| Marked.name := js "internal-link"; Marked.level := js "inline";
       Marked.start := InternalLinkExtension.start;
       Marked.tokenizer := InternalLinkExtension.tokenizer |};
    {| Marked.name := js "internal-embed"; Marked.level := js "inline";
       Marked.start := InternalEmbedExtension.start;
       Marked.tokenizer := InternalEmbedExtension.tokenizer |};
    {| Marked.name := js "tag"; Marked.level := js "inline";
       Marked.start := TagExtension.start;
       Marked.tokenizer := TagExtension.tokenizer |};
    {| Marked.name := js "highlight"; Marked.level := js "inline";
       Marked.start := HighlightExtension.start;
       Marked.tokenizer := HighlightExtension.tokenizer |} ].

(** * Shapes of the version fields *)

(** The letter [v] followed by one or more decimal digits. *)
Definition isVersionTag (s : jsstring) : Prop :=
  exists d, s = 118 :: d /\ d <> [] /\ forallb isDigit d = true.

(** Three non-empty runs of decimal digits separated by dots. *)
Definition isSemver (s : jsstring) : Prop :=
  exists a b c,
    s = a ++ 46 :: b ++ 46 :: c
    /\ a <> [] /\ b <> [] /\ c <> []
    /\ forallb isDigit a = true /\ forallb isDigit b = true
    /\ forallb isDigit c = true.

(** A request whose [crypto_version] is malformed. *)
Definition badVersionRequest : Request :=
  {| connectingIp := js "127.0.0.1";
     body := {| ciphertext := ciphertext testNote; hmac := hmac testNote;
                user_id := None; plugin_version := None;
                crypto_version := Some (js "v1a") |} |}.

(** A request whose [user_id] is in upper case, with the checksum of its
    first 12 characters. *)
Definition upperUserRequest : Request :=
  {| connectingIp := js "127.0.0.1";
     body := {| ciphertext := ciphertext testNote; hmac := hmac testNote;
                user_id := Some (js "ABCDEFABCDEF7b21");
                plugin_version := None; crypto_version := None |} |}.

(** A request with an empty body. *)
Definition emptyRequest : Request :=
  {| connectingIp := js "127.0.0.1";
     body := {| ciphertext := None; hmac := None; user_id := None;
                plugin_version := None; crypto_version := None |} |}.

(** A storage layer that fails. *)
Definition failing (err : jsstring) : Storage :=
  {| fault := Some err; clock := 5; randoms := [] |}.
(** * Properties *)

Example crc_check_value : crc (js "123456789") = 0xBB3D.
Proof. vm_compute. reflexivity. Qed.

Example crc_hello : toString16 (crc (js "hello")) = js "34d2".
Proof. vm_compute. reflexivity. Qed.

Example utf8_two_bytes : utf8 [0xE9] = [0xC3; 0xA9].
Proof. reflexivity. Qed.

Example utf8_three_bytes : utf8 [0x20AC] = [0xE2; 0x82; 0xAC].
Proof. reflexivity. Qed.

Example utf8_surrogate_pair : utf8 [0xD83D; 0xDE00] = [0xF0; 0x9F; 0x98; 0x80].
Proof. reflexivity. Qed.

Example utf8_lone_surrogate : utf8 [0xD83D; 0x30] = [0xEF; 0xBF; 0xBD; 0x30].
Proof. reflexivity. Qed.

Example toString16_zero : toString16 0 = js "0".
Proof. reflexivity. Qed.

Example hex4_pads : hex4 0x30 = js "0030".
Proof. reflexivity. Qed.

Example plugin_version_ok : matchesPluginVersion (js "1.12.0") = true.
Proof. reflexivity. Qed.

Example plugin_version_short : matchesPluginVersion (js "1.12") = false.
Proof. reflexivity. Qed.

Example crypto_version_ok : matchesCryptoVersion (js "v1") = true.
Proof. reflexivity. Qed.

Example crypto_version_bad : matchesCryptoVersion (js "v1a") = false.
Proof. reflexivity. Qed.

Example checkId_zeros : checkId (js "0000000000004686") = true.
Proof. vm_compute. reflexivity. Qed.

Example checkId_bad : checkId (js "0000000000004687") = false.
Proof. vm_compute. reflexivity. Qed.

Example checkId_nonhex : checkId (js "zzzzzzzzzzzz99ff") = true.
Proof. vm_compute. reflexivity. Qed.

Example checkId_wide : checkId (0x607a :: js "000000000004686") = true.
Proof. vm_compute. reflexivity. Qed.

(** ** Properties of the hexadecimal rendering *)

Lemma in_below (n x : N) : x < n -> In x (below n).
Proof.
  unfold below. induction n as [|n IH] using N.peano_ind; [lia|].
  rewrite N.recursion_succ; [|reflexivity|intros ? ? -> ? ? ->; reflexivity].
  intros Hx. destruct (N.eq_dec x n) as [->|Hne]; [left; reflexivity|].
  right. apply IH. lia.
Qed.

Lemma below_forallb (P : N -> bool) (n x : N) :
  forallb P (below n) = true -> x < n -> P x = true.
Proof.
  intros H Hx. rewrite forallb_forall in H. apply H, in_below, Hx.
Qed.

Lemma hex4_digits (x : N) : x < 65536 -> hex4 x = digits4 x.
Proof.
  intros Hx.
  pose proof (below_forallb (fun y => str_eqb (hex4 y) (digits4 y)) 65536 x) as H.
  cbv beta in H. unfold str_eqb in H. rewrite bool_decide_eq_true in H.
  apply H; [vm_compute; reflexivity | exact Hx].
Qed.

(** The fuel of [toString16] is enough: the loop ends because the quotient
    reaches zero, and more fuel gives the same digits. *)
Lemma toHexAux_fuel (f : nat) :
  forall (n : N) (acc : jsstring) (f' : nat),
    n < 2 ^ N.of_nat (S f) -> (f <= f')%nat ->
    toHexAux (S f') n acc = toHexAux (S f) n acc.
Proof.
  induction f as [|g IH]; intros n acc f' Hn Hf; simpl.
  - replace (n / 16) with 0; [reflexivity|].
    symmetry. apply N.div_small. change (2 ^ N.of_nat 1) with 2 in Hn. lia.
  - destruct (N.eqb_spec (n / 16) 0) as [E|E]; [reflexivity|].
    destruct f' as [|g']; [lia|].
    apply IH; [|lia].
    apply N.Div0.div_lt_upper_bound.
    rewrite !Nat2N.inj_succ, !N.pow_succ_r' in *. lia.
Qed.

Lemma toString16_fuel (n : N) (f : nat) :
  (S (N.to_nat (N.log2 n)) <= f)%nat -> toHexAux f n [] = toString16 n.
Proof.
  intros Hf. destruct f as [|f']; [lia|]. unfold toString16.
  apply toHexAux_fuel; [|lia].
  rewrite Nat2N.inj_succ, N2Nat.id.
  destruct (N.eq_dec n 0) as [->|Hn]; [reflexivity|].
  apply N.log2_spec. lia.
Qed.

Lemma hexDigit_lower (d : N) : d < 16 -> isLowerHex (hexDigit d) = true.
Proof.
  intros Hd. unfold isLowerHex, hexDigit.
  destruct (N.ltb_spec d 10).
  - replace (48 <=? 48 + d) with true by (symmetry; apply N.leb_le; lia).
    replace (48 + d <=? 57) with true by (symmetry; apply N.leb_le; lia).
    reflexivity.
  - replace (97 <=? 97 + (d - 10)) with true by (symmetry; apply N.leb_le; lia).
    replace (97 + (d - 10) <=? 102) with true by (symmetry; apply N.leb_le; lia).
    apply orb_true_r.
Qed.

Lemma hexDigit_inj (a b : N) : a < 16 -> b < 16 -> hexDigit a = hexDigit b -> a = b.
Proof.
  unfold hexDigit. intros Ha Hb.
  destruct (N.ltb_spec a 10), (N.ltb_spec b 10); lia.
Qed.

Lemma digits4_inj (x y : N) :
  x < 65536 -> y < 65536 -> digits4 x = digits4 y -> x = y.
Proof.
  intros Hx Hy H. unfold digits4 in H.
  injection H as H3 H2 H1 H0.
  assert (B : forall z, z < 65536 -> z / 4096 < 16).
  { intros z Hz. apply N.Div0.div_lt_upper_bound. lia. }
  assert (M : forall z, z mod 16 < 16) by (intros z; apply N.mod_lt; lia).
  apply hexDigit_inj in H3; [|apply B; assumption..].
  apply hexDigit_inj in H2; [|apply M..].
  apply hexDigit_inj in H1; [|apply M..].
  apply hexDigit_inj in H0; [|apply M..].
  assert (D : forall z, z = 4096 * (z / 4096)
                 + 256 * (z / 256 mod 16) + 16 * (z / 16 mod 16) + z mod 16).
  { intros z.
    pose proof (N.div_mod z 16 ltac:(lia)) as E0.
    pose proof (N.div_mod (z / 16) 16 ltac:(lia)) as E1.
    pose proof (N.div_mod (z / 16 / 16) 16 ltac:(lia)) as E2.
    rewrite !N.Div0.div_div in E1, E2 by lia.
    rewrite N.Div0.div_div in E2 by lia. simpl in E1, E2.
    change (16 * 16) with 256 in *. change (256 * 16) with 4096 in *.
    lia. }
  rewrite (D x), (D y). congruence.
Qed.

Lemma hex4_inj (x y : N) : x < 65536 -> y < 65536 -> hex4 x = hex4 y -> x = y.
Proof.
  intros Hx Hy. rewrite !hex4_digits by assumption. apply digits4_inj; assumption.
Qed.

Lemma hex4_length (x : N) : x < 65536 -> length (hex4 x) = 4%nat.
Proof. intros Hx. rewrite hex4_digits by assumption. reflexivity. Qed.

Lemma hex4_lower (x : N) :
  x < 65536 -> Forall (fun c => isLowerHex c = true) (hex4 x).
Proof.
  intros Hx. rewrite hex4_digits by assumption. unfold digits4.
  assert (M : forall z, z mod 16 < 16) by (intros z; apply N.mod_lt; lia).
  repeat constructor; apply hexDigit_lower; auto.
  apply N.Div0.div_lt_upper_bound. lia.
Qed.

(** ** Properties of the CRC *)

Lemma lt_pow2_log2 (a n : N) : a < 2 ^ n <-> a = 0 \/ N.log2 a < n.
Proof.
  destruct (N.eq_dec a 0) as [->|Ha].
  - split; [auto|]. intros _. apply N.neq_0_lt_0, N.pow_nonzero. lia.
  - rewrite <- N.log2_lt_pow2 by lia. split; [auto|]. intros [?|?]; [lia|assumption].
Qed.

Lemma lxor_lt_pow2 (a b n : N) : a < 2 ^ n -> b < 2 ^ n -> N.lxor a b < 2 ^ n.
Proof.
  intros Ha Hb. apply lt_pow2_log2.
  destruct (N.eq_dec (N.lxor a b) 0) as [?|Hne]; [auto|right].
  apply lt_pow2_log2 in Ha, Hb.
  pose proof (N.log2_lxor a b) as Hl.
  destruct Ha as [->|Ha], Hb as [->|Hb].
  - rewrite N.lxor_0_l in Hne. lia.
  - rewrite N.lxor_0_l. assumption.
  - rewrite N.lxor_0_r. assumption.
  - lia.
Qed.

Lemma land_low (a n : N) : a < 2 ^ n -> N.land a (N.ones n) = a.
Proof. intros Ha. rewrite N.land_ones. apply N.mod_small, Ha. Qed.

Lemma lxor_cancel_r (a b c : N) : N.lxor a c = N.lxor b c -> a = b.
Proof.
  intros H. apply (f_equal (fun x => N.lxor x c)) in H.
  rewrite !N.lxor_assoc, !N.lxor_nilpotent, !N.lxor_0_r in H. exact H.
Qed.

Lemma lxor_cancel_l (a b c : N) : N.lxor c a = N.lxor c b -> a = b.
Proof. rewrite !(N.lxor_comm c). apply lxor_cancel_r. Qed.

Lemma land_lxor_distr (a b c : N) :
  N.land (N.lxor a b) c = N.lxor (N.land a c) (N.land b c).
Proof.
  apply N.bits_inj. intros n.
  rewrite N.land_spec, !N.lxor_spec, !N.land_spec.
  destruct (N.testbit a n), (N.testbit b n), (N.testbit c n); reflexivity.
Qed.

Lemma TABLE_length : length TABLE = 256%nat.
Proof. reflexivity. Qed.

Lemma TABLE_bound (i : nat) : nth i TABLE 0 < 2 ^ 16.
Proof.
  assert (H : Forall (fun x => x < 2 ^ 16) TABLE).
  { apply List.Forall_forall. intros x Hx.
    apply (proj1 (forallb_forall (fun x => x <? 2 ^ 16) TABLE)) with (x := x) in Hx;
      [apply N.ltb_lt; exact Hx | vm_compute; reflexivity]. }
  destruct (Nat.lt_ge_cases i (length TABLE)) as [Hi|Hi].
  - rewrite List.Forall_forall in H. apply H, nth_In, Hi.
  - rewrite nth_overflow by exact Hi. reflexivity.
Qed.

(** Distinct indices select entries with distinct high bytes. *)
Lemma TABLE_high_inj (i j : nat) :
  (i < 256)%nat -> (j < 256)%nat ->
  N.shiftr (nth i TABLE 0) 8 = N.shiftr (nth j TABLE 0) 8 -> i = j.
Proof.
  intros Hi Hj H.
  assert (ND : NoDup (map (fun x => N.shiftr x 8) TABLE)).
  { apply (bool_decide_unpack _). vm_compute. exact I. }
  apply NoDup_ListNoDup in ND.
  apply (proj1 (NoDup_nth _ (N.shiftr 0 8))) with (i := i) (j := j) in ND;
    [exact ND|..]; rewrite ?length_map, ?TABLE_length; try assumption.
  rewrite !(map_nth (fun x => N.shiftr x 8)). exact H.
Qed.

Lemma TABLE_inj (i j : nat) :
  (i < 256)%nat -> (j < 256)%nat -> nth i TABLE 0 = nth j TABLE 0 -> i = j.
Proof. intros Hi Hj H. apply TABLE_high_inj; congruence. Qed.

Lemma crc16_step_bound (s b : N) : crc16_step s b < 2 ^ 16.
Proof.
  unfold crc16_step. change 0xffff with (N.ones 16).
  rewrite N.land_ones. apply N.mod_lt. discriminate.
Qed.

Lemma crc16_bytes_bound (buf : list N) (s : N) :
  s < 2 ^ 16 -> crc16_bytes buf s < 2 ^ 16.
Proof.
  unfold crc16_bytes. revert s.
  induction buf as [|b buf IH]; intros s Hs; simpl; [exact Hs|].
  apply IH, crc16_step_bound.
Qed.

Lemma crc_bound (s : jsstring) : crc s < 65536.
Proof. apply (crc16_bytes_bound (utf8 s) 0). reflexivity. Qed.

Lemma crc16_index_lt (s b : N) : (N.to_nat (N.land (N.lxor s b) 0xff) < 256)%nat.
Proof.
  change 0xff with (N.ones 8). rewrite N.land_ones.
  pose proof (N.mod_lt (N.lxor s b) (2 ^ 8)) as H. change (2 ^ 8) with 256 in *. lia.
Qed.

Lemma shiftr8_lt (s : N) : s < 2 ^ 16 -> N.shiftr s 8 < 2 ^ 8.
Proof.
  intros Hs. rewrite N.shiftr_div_pow2.
  apply N.Div0.div_lt_upper_bound. exact Hs.
Qed.

Lemma crc16_step_unmasked (s b : N) :
  s < 2 ^ 16 ->
  crc16_step s b =
  N.lxor (nth (N.to_nat (N.land (N.lxor s b) 0xff)) TABLE 0) (N.shiftr s 8).
Proof.
  intros Hs. unfold crc16_step. change 0xffff with (N.ones 16).
  apply land_low, lxor_lt_pow2; [apply TABLE_bound|].
  apply N.lt_trans with (2 ^ 8); [apply shiftr8_lt, Hs | reflexivity].
Qed.

(** For a fixed state, distinct bytes lead to distinct states. *)
Lemma crc16_step_inj_byte (s b b' : N) :
  s < 2 ^ 16 -> b < 256 -> b' < 256 ->
  crc16_step s b = crc16_step s b' -> b = b'.
Proof.
  intros Hs Hb Hb'. rewrite !crc16_step_unmasked by exact Hs. intros H.
  apply lxor_cancel_r, TABLE_inj, N2Nat.inj in H; try apply crc16_index_lt.
  rewrite !land_lxor_distr in H. apply lxor_cancel_l in H.
  change 0xff with (N.ones 8) in H.
  rewrite !land_low in H by assumption. exact H.
Qed.

(** For a fixed byte, distinct states lead to distinct states. *)
Lemma crc16_step_inj_state (s s' b : N) :
  s < 2 ^ 16 -> s' < 2 ^ 16 ->
  crc16_step s b = crc16_step s' b -> s = s'.
Proof.
  intros Hs Hs'. rewrite !crc16_step_unmasked by assumption. intros H.
  assert (Z8 : forall x, x < 2 ^ 16 -> N.shiftr (N.shiftr x 8) 8 = 0).
  { intros x Hx. rewrite (N.shiftr_div_pow2 _ 8).
    apply N.div_small, shiftr8_lt, Hx. }
  pose proof (f_equal (fun x => N.shiftr x 8) H) as Hhi. cbv beta in Hhi.
  rewrite !N.shiftr_lxor, !Z8, !N.lxor_0_r in Hhi by assumption.
  apply TABLE_high_inj in Hhi; try apply crc16_index_lt.
  rewrite Hhi in H. apply lxor_cancel_l in H.
  apply N2Nat.inj in Hhi.
  rewrite !land_lxor_distr in Hhi. apply lxor_cancel_r in Hhi.
  change 0xff with (N.ones 8) in Hhi. rewrite !N.land_ones in Hhi.
  rewrite !N.shiftr_div_pow2 in H.
  rewrite (N.div_mod s (2 ^ 8)), (N.div_mod s' (2 ^ 8)) by discriminate.
  congruence.
Qed.

Lemma crc16_bytes_inj_state (buf : list N) (s s' : N) :
  s < 2 ^ 16 -> s' < 2 ^ 16 ->
  crc16_bytes buf s = crc16_bytes buf s' -> s = s'.
Proof.
  unfold crc16_bytes. revert s s'.
  induction buf as [|b buf IH]; intros s s' Hs Hs' H; simpl in H; [exact H|].
  apply IH in H; try apply crc16_step_bound.
  eapply crc16_step_inj_state; eassumption.
Qed.

(** A change of one byte always changes the CRC. *)
Lemma crc16_bytes_single_byte (pre post : list N) (b b' s : N) :
  s < 2 ^ 16 -> b < 256 -> b' < 256 -> b <> b' ->
  crc16_bytes (pre ++ b :: post) s <> crc16_bytes (pre ++ b' :: post) s.
Proof.
  intros Hs Hb Hb' Hne H. unfold crc16_bytes in H.
  rewrite !fold_left_app in H. simpl in H.
  apply (crc16_bytes_inj_state post) in H; try apply crc16_step_bound.
  apply crc16_step_inj_byte in H; try assumption.
  - contradiction.
  - apply (crc16_bytes_bound pre s Hs).
Qed.

Lemma utf8_ascii (s : jsstring) : Forall (fun c => c < 0x80) s -> utf8 s = s.
Proof.
  induction 1 as [|c s Hc _ IH]; [reflexivity|].
  simpl. apply N.ltb_lt in Hc. rewrite Hc, IH. reflexivity.
Qed.

Lemma isLowerHex_ascii (c : N) : isLowerHex c = true -> c < 0x80.
Proof.
  unfold isLowerHex. rewrite orb_true_iff, !andb_true_iff, !N.leb_le. lia.
Qed.

(** ** Identifier validation *)

Lemma slice_app_l (a b : jsstring) :
  length a = 12%nat -> slice (a ++ b) 0 12 = a.
Proof.
  intros Ha. unfold slice. simpl skipn.
  change (12 - 0)%nat with 12%nat. rewrite <- Ha. apply take_app_length.
Qed.

Lemma slice_app_r (a b : jsstring) :
  length a = 12%nat -> length b = 4%nat -> slice (a ++ b) 12 16 = b.
Proof.
  intros Ha Hb. unfold slice. change (16 - 12)%nat with 4%nat.
  rewrite <- Ha at 1. rewrite drop_app_length. rewrite <- Hb. apply firstn_all.
Qed.

Lemma checkId_true_iff (id : jsstring) :
  checkId id = true <->
  length id = 16%nat /\ slice id 12 16 = hex4 (crc (slice id 0 12)).
Proof.
  unfold checkId, str_eqb.
  destruct (Nat.eqb_spec (length id) 16) as [E|E]; simpl.
  - rewrite bool_decide_eq_true. split; [intros H; split; congruence|].
    intros [_ H]. congruence.
  - split; [discriminate|]. intros [H _]. contradiction.
Qed.

Lemma makeId_length (p : jsstring) : length p = 12%nat -> length (makeId p) = 16%nat.
Proof.
  intros Hp. unfold makeId. rewrite length_app, Hp, hex4_length; [reflexivity|].
  apply crc_bound.
Qed.

Lemma checkId_makeId (p : jsstring) : length p = 12%nat -> checkId (makeId p) = true.
Proof.
  intros Hp. apply checkId_true_iff. split; [apply makeId_length, Hp|].
  unfold makeId. pose proof (hex4_length (crc p) (crc_bound p)) as Hh.
  rewrite slice_app_l, slice_app_r by assumption. reflexivity.
Qed.

(** A replacement among the first 12 characters by a one-byte character
    changes the checksum. *)
Lemma crc_insert_ascii (p : jsstring) (i : nat) (c : N) :
  Forall (fun x => x < 0x80) p -> c < 0x80 ->
  (i < length p)%nat -> p !! i <> Some c ->
  crc (<[i:=c]> p) <> crc p.
Proof.
  intros Hp Hc Hi Hne.
  destruct (lookup_lt_is_Some_2 p i Hi) as [x Hx].
  pose proof (Forall_lookup_1 _ _ _ _ Hp Hx) as Hx'. cbv beta in Hx'.
  unfold crc. rewrite (utf8_ascii p Hp).
  rewrite utf8_ascii by (apply Forall_insert; assumption).
  rewrite insert_take_drop by exact Hi.
  rewrite <- (take_drop_middle p i x Hx) at 3.
  apply crc16_bytes_single_byte.
  - reflexivity.
  - lia.
  - lia.
  - intros ->. apply Hne. exact Hx.
Qed.

Lemma forallb_lower_ascii (p : jsstring) :
  forallb isLowerHex p = true -> Forall (fun x => x < 0x80) p.
Proof.
  intros H. apply List.Forall_forall. intros x Hx.
  apply isLowerHex_ascii. rewrite forallb_forall in H. apply H, Hx.
Qed.

(** C2 (as stated) fails: [checkId] accepts an identifier whose first 12
    characters are not hexadecimal, as long as the checksum matches. *)
Lemma checkId_non_hex_accepted :
  ~ (checkId (js "zzzzzzzzzzzz99ff") = true <->
     length (js "zzzzzzzzzzzz99ff") = 16%nat
     /\ forallb isLowerHex (js "zzzzzzzzzzzz99ff") = true
     /\ slice (js "zzzzzzzzzzzz99ff") 12 16
        = hex4 (crc (slice (js "zzzzzzzzzzzz99ff") 0 12))).
Proof.
  intros [H _].
  assert (A : checkId (js "zzzzzzzzzzzz99ff") = true) by (vm_compute; reflexivity).
  destruct (H A) as (_ & Hhex & _). vm_compute in Hhex. discriminate Hhex.
Qed.

(** C2 (amended): [checkId id] is true exactly when [id] has 16 characters
    and its trailing 4 characters equal the CRC-16 of the first 12 rendered
    as 4 lowercase zero-padded hexadecimal digits.  The trailing 4 characters
    of an accepted identifier are therefore lowercase hexadecimal; the first
    12 are not inspected, so any length or checksum mismatch is rejected and
    an identifier passes the specified validation exactly when [checkId]
    accepts it and its first 12 characters are lowercase hexadecimal. *)
Theorem checkId_accepts_iff (id : jsstring) :
  (checkId id = true <->
     length id = 16%nat /\ slice id 12 16 = hex4 (crc (slice id 0 12)))
  /\ (checkId id = true -> forallb isLowerHex (slice id 12 16) = true)
  /\ (validate id = true <->
        checkId id = true /\ forallb isLowerHex (slice id 0 12) = true).
Proof.
  split; [apply checkId_true_iff|]. split.
  - intros H. apply checkId_true_iff in H as [_ ->].
    apply forallb_forall. intros c Hc.
    pose proof (hex4_lower _ (crc_bound (slice id 0 12))) as F.
    rewrite List.Forall_forall in F. apply F, Hc.
  - unfold validate, str_eqb.
    rewrite !andb_true_iff, bool_decide_eq_true, Nat.eqb_eq, checkId_true_iff.
    split.
    + intros [[Hl Hh] He]. repeat split; try congruence.
      rewrite <- (firstn_skipn 12 id), forallb_app in Hh.
      apply andb_true_iff in Hh as [Hh _]. exact Hh.
    + intros [[Hl He] Hp]. repeat split; try congruence.
      assert (Hid : id = slice id 0 12 ++ slice id 12 16).
      { unfold slice. simpl skipn. change (12 - 0)%nat with 12%nat.
        change (16 - 12)%nat with 4%nat.
        rewrite (firstn_all2 (n := 4)) by (rewrite length_skipn; lia).
        symmetry. apply firstn_skipn. }
      rewrite Hid, forallb_app, Hp. simpl. rewrite He.
      apply forallb_forall. intros c Hc.
      pose proof (hex4_lower _ (crc_bound (slice id 0 12))) as F.
      rewrite List.Forall_forall in F. apply F, Hc.
Qed.

Lemma checkId_accepts_iff_witness :
  checkId (js "0000000000004686") = true
  /\ forallb isLowerHex (slice (js "0000000000004686") 12 16) = true
  /\ validate (js "0000000000004686") = true.
Proof.
  destruct (checkId_accepts_iff (js "0000000000004686")) as (H1 & H2 & H3).
  assert (A : checkId (js "0000000000004686") = true).
  { apply H1. split; vm_compute; reflexivity. }
  split; [exact A|]. split; [exact (H2 A)|].
  apply H3. split; [exact A | vm_compute; reflexivity].
Defined.

(** C10: [checkId] does not throw on a string.  Run with the exceptions
    that its property reads and method calls can throw, it returns on every
    string, of any length and with any characters, and the boolean it
    returns is the one [checkId] computes; that boolean is [false] for
    every string whose length is not 16, and it is [true] exactly for the
    16-character strings whose trailing 4 characters are the checksum of the
    first 12. *)
Theorem checkId_never_throws (s : jsstring) :
  checkIdE (JString s) = Returned (checkId s)
  /\ (length s <> 16%nat -> checkIdE (JString s) = Returned false)
  /\ (checkIdE (JString s) = Returned true <->
        length s = 16%nat /\ slice s 12 16 = hex4 (crc (slice s 0 12))).
Proof.
  assert (E : checkIdE (JString s) = Returned (checkId s)).
  { unfold checkIdE, checkId. simpl getLength. cbv beta iota.
    destruct (Nat.eqb_spec (length s) 16) as [Hl|Hl].
    - rewrite bool_decide_eq_true_2 by congruence. reflexivity.
    - rewrite bool_decide_eq_false_2 by congruence. reflexivity. }
  split; [exact E|]. split.
  - intros Hl. rewrite E. f_equal. unfold checkId.
    destruct (Nat.eqb_spec (length s) 16); [contradiction|reflexivity].
  - rewrite E, <- checkId_true_iff. split; [intros [= ->]|intros ->]; reflexivity.
Qed.

Lemma checkId_never_throws_witness :
  checkIdE (JString (js "NaN")) = Returned false.
Proof.
  apply (checkId_never_throws (js "NaN")). simpl. lia.
Defined.

(** The exceptions of the model are reachable: outside the strings,
    [checkId] throws on [undefined] and [null], whose [length] cannot be
    read, and returns [false] on a number. *)
Example checkIdE_outside_strings :
  checkIdE JUndefined = Thrown (js "TypeError")
  /\ checkIdE JNull = Thrown (js "TypeError")
  /\ checkIdE (JNumber 16) = Returned false.
Proof. repeat split. Qed.

(** A replacement by a one-byte character, or among the trailing 4
    characters, is detected by [checkId] alone. *)
Lemma checkId_replacement (p : jsstring) (i : nat) (c : N) :
  length p = 12%nat -> forallb isLowerHex p = true ->
  (i < 16)%nat -> makeId p !! i <> Some c ->
  (12 <= i)%nat \/ c < 0x80 ->
  checkId (<[i:=c]> (makeId p)) = false.
Proof.
  intros Hp Hhex Hi Hne Hc.
  pose proof (hex4_length (crc p) (crc_bound p)) as Hh.
  apply not_true_is_false. intros A.
  apply checkId_true_iff in A as [_ A]. unfold makeId in *.
  destruct (Nat.lt_ge_cases i 12) as [Hlt|Hge].
  - destruct Hc as [Hc|Hc]; [lia|].
    rewrite insert_app_l in A by lia.
    rewrite lookup_app_l in Hne by lia.
    rewrite slice_app_l, slice_app_r in A by (rewrite ?length_insert; assumption).
    apply hex4_inj in A; try apply crc_bound.
    symmetry in A. revert A. apply crc_insert_ascii; try assumption; [|lia].
    apply forallb_lower_ascii, Hhex.
  - rewrite insert_app_r_alt in A by lia.
    rewrite lookup_app_r in Hne by lia. rewrite Hp in *.
    rewrite slice_app_l, slice_app_r in A by (rewrite ?length_insert; assumption).
    apply Hne. rewrite <- A at 1. apply list_lookup_insert_eq. lia.
Qed.

(** What [validate] accepts, [checkId] accepts. *)
Lemma validate_checkId (k : jsstring) : validate k = true -> checkId k = true.
Proof.
  unfold validate, checkId. rewrite !andb_true_iff.
  intros [[Hl _] He]. rewrite Hl. exact He.
Qed.

Lemma validate_makeId (p : jsstring) :
  length p = 12%nat -> forallb isLowerHex p = true -> validate (makeId p) = true.
Proof.
  intros Hp Hhex.
  pose proof (checkId_makeId p Hp) as A. unfold checkId in A.
  unfold validate. rewrite !andb_true_iff.
  destruct (length (makeId p) =? 16)%nat; [|discriminate A].
  split; [split; [reflexivity|]|exact A].
  unfold makeId. rewrite forallb_app, Hhex. simpl.
  apply forallb_forall. intros c Hc.
  pose proof (hex4_lower _ (crc_bound p)) as F.
  rewrite List.Forall_forall in F. apply F, Hc.
Qed.

(** C5: for every 12-character lowercase-hexadecimal prefix, the identifier
    formed by appending the CRC-16 of the prefix, rendered as 4 lowercase
    zero-padded hexadecimal digits, passes validation, both [validate] and
    the [checkId] of the controller; and replacing any one of its 16
    characters by any different character makes [validate] return false.
    A replacement by a character that is not a lowercase hexadecimal digit
    fails the character test; one by a hexadecimal digit changes the
    checksum, which [checkId] alone detects, as it does every replacement
    by a one-byte character or among the trailing 4 characters. *)
Theorem makeId_checksum_sensitive (p : jsstring) :
  length p = 12%nat -> forallb isLowerHex p = true ->
  validate (makeId p) = true
  /\ checkId (makeId p) = true
  /\ (forall (i : nat) (c : N),
        (i < 16)%nat -> makeId p !! i <> Some c ->
        validate (<[i:=c]> (makeId p)) = false)
  /\ (forall (i : nat) (c : N),
        (i < 16)%nat -> makeId p !! i <> Some c ->
        (12 <= i)%nat \/ c < 0x80 ->
        checkId (<[i:=c]> (makeId p)) = false).
Proof.
  intros Hp Hhex.
  split; [apply validate_makeId; assumption|].
  split; [apply checkId_makeId, Hp|].
  split; [|intros i c; apply checkId_replacement; assumption].
  intros i c Hi Hne. apply not_true_is_false. intros V.
  pose proof (validate_checkId _ V) as A.
  rewrite (checkId_replacement p i c) in A; try assumption; [discriminate A|].
  right. apply isLowerHex_ascii.
  unfold validate in V. rewrite !andb_true_iff in V.
  destruct V as [[_ V] _]. rewrite forallb_forall in V. apply V.
  apply list_elem_of_In, (list_elem_of_lookup_2 _ i).
  apply list_lookup_insert_eq.
  pose proof (hex4_length (crc p) (crc_bound p)) as Hh.
  unfold makeId. rewrite length_app. lia.
Qed.

Lemma makeId_checksum_sensitive_witness :
  validate (makeId (js "0123456789ab")) = true
  /\ validate (<[3%nat:=102]> (makeId (js "0123456789ab"))) = false
  /\ validate (<[0%nat:=0x607a]> (makeId (js "0123456789ab"))) = false.
Proof.
  destruct (makeId_checksum_sensitive (js "0123456789ab") eq_refl eq_refl)
    as (H1 & _ & H2 & _).
  split; [exact H1|]. split; apply H2.
  - lia.
  - vm_compute. discriminate.
  - lia.
  - vm_compute. discriminate.
Defined.

(** * The note-posting controller *)

Lemma createNote_saved (note : NewNote) (db : Storage)
    (table table' : gmap jsstring EncryptedNote) (saved : EncryptedNote) :
  createNote note db table = (inr saved, table') ->
  table !! id saved = None
  /\ table' = <[id saved := saved]> table
  /\ insert_time saved = clock db
  /\ expire_time saved = new_expire_time note
  /\ note_ciphertext saved = new_ciphertext note
  /\ note_hmac saved = new_hmac note.
Proof.
  unfold createNote. destruct (fault db); [discriminate|].
  destruct (List.find _ _) as [k|] eqn:F; [|discriminate].
  apply find_some in F as [_ F]. apply bool_decide_eq_true in F.
  intros [= <- <-]. simpl. repeat split; auto.
Qed.

Lemma createNote_failed (note : NewNote) (db : Storage)
    (table table' : gmap jsstring EncryptedNote) (err : jsstring) :
  createNote note db table = (inl err, table') -> table' = table.
Proof.
  unfold createNote. destruct (fault db); [intros [= _ <-]; reflexivity|].
  destruct (List.find _ _); [discriminate|]. intros [= _ <-]. reflexivity.
Qed.

(** The four paths of [postNoteController]: rejected by the body
    validation, rejected by the user-id checksum, failed in the store,
    stored.  [V] and [C] name the equations of the validation and of
    [createNote]. *)
Ltac post_paths V C :=
  unfold postNoteController;
  destruct (validateOrReject (assignBody (body _))) as [?err|] eqn:V;
  [| destruct (truthy _ && negb _) eqn:?;
     [| destruct (createNote _ _ _) as [[?err|?saved] ?table] eqn:C;
        [apply createNote_failed in C as ->
        |apply createNote_saved in C as (?Hfree & -> & ?Hi & ?He & ?Hc & ?Hh)]]];
  simpl in *.

Section ControllerProperties.
Context `{Platform}.

Lemma validateOrReject_passed (r : NotePostRequest) :
  validateOrReject r = None ->
  isNotEmpty (ciphertext r) = true
  /\ isNotEmpty (hmac r) = true
  /\ validateIfPresent isHexadecimal (user_id r) = true.
Proof.
  unfold validateOrReject.
  destruct (failedProperties r) eqn:E; [intros _|discriminate].
  unfold failedProperties in E.
  repeat (apply app_eq_nil in E as [? E]).
  destruct (holds isBase64 (ciphertext r) && isNotEmpty (ciphertext r)) eqn:C;
    [|discriminate].
  destruct (holds isBase64 (hmac r) && isNotEmpty (hmac r)) eqn:M; [|discriminate].
  destruct (validateIfPresent isHexadecimal (user_id r)); [|discriminate].
  apply andb_true_iff in C as [_ C]. apply andb_true_iff in M as [_ M]. auto.
Qed.

(** C3: every request handled by [postNoteController] appends exactly one
    WRITE event to the audit log, whatever path it takes, and the event's
    [success] field is true if and only if the note was persisted and the
    response has status 200. *)
Theorem postNoteController_one_write_event
    (req : Request) (now : Z) (db : Storage) (st : Server) :
  exists e : Event,
    events (snd (postNoteController req now db st))
      = events st ++ [{| type := WRITE; event := e |}]
    /\ (success e = true <->
        status (fst (postNoteController req now db st)) = 200
        /\ persisted st (snd (postNoteController req now db st)))
    /\ (success e = false ->
        notes (snd (postNoteController req now db st)) = notes st).
Proof.
  post_paths V C; (eexists; split; [reflexivity|]); simpl.
  1-3: split; [split; [discriminate | intros [? _]; discriminate] | reflexivity].
  split; [|discriminate]. split; [intros _|reflexivity].
  split; [reflexivity|]. exists (id saved), saved. auto.
Qed.

(** C4: for every successfully created note the stored [expire_time] is the
    creation time read by the controller plus exactly 30 days; it differs
    from 30 days after the stored [insert_time] only by the delay between
    the controller's clock reading and the storage layer's; and the WRITE
    event records [expire_window_days = 30]. *)
Theorem postNoteController_expiry
    (req : Request) (now : Z) (db : Storage) (st : Server) :
  status (fst (postNoteController req now db st)) = 200 ->
  exists (note : EncryptedNote) (e : Event),
    events (snd (postNoteController req now db st))
      = events st ++ [{| type := WRITE; event := e |}]
    /\ note_id e = Some (id note)
    /\ notes st !! id note = None
    /\ notes (snd (postNoteController req now db st)) !! id note = Some note
    /\ expire_time note = (now + 30 * 86400000)%Z
    /\ (expire_time note - insert_time note
        = 30 * 86400000 - (clock db - now))%Z
    /\ expire_window_days e = Some 30%Z.
Proof.
  post_paths V C; try discriminate. intros _.
  exists saved. eexists. split; [reflexivity|]. simpl.
  unfold addDays, EXPIRE_WINDOW_DAYS in He.
  repeat split; try assumption; try lia.
  apply lookup_insert_eq.
Qed.

(** C8: for every successful write the WRITE event's [size_bytes] is the
    sum of the lengths of the stored ciphertext and the stored hmac, which
    are the ciphertext and hmac of the request. *)
Theorem postNoteController_size_bytes
    (req : Request) (now : Z) (db : Storage) (st : Server) (e : Event) :
  events (snd (postNoteController req now db st))
    = events st ++ [{| type := WRITE; event := e |}] ->
  success e = true ->
  exists note : EncryptedNote,
    note_id e = Some (id note)
    /\ notes (snd (postNoteController req now db st)) !! id note = Some note
    /\ size_bytes e
       = Some (length (note_ciphertext note) + length (note_hmac note))%nat
    /\ ciphertext (body req) = Some (note_ciphertext note)
    /\ hmac (body req) = Some (note_hmac note).
Proof.
  post_paths V C; intros E%app_inv_head; injection E as <-;
    try discriminate.
  intros _. apply validateOrReject_passed in V as (Vc & Vh & _).
  simpl in Vc, Vh.
  exists saved. simpl. rewrite lookup_insert_eq, Hc, Hh.
  destruct (ciphertext (body req)) as [[|]|]; try discriminate.
  destruct (hmac (body req)) as [[|]|]; try discriminate.
  auto.
Qed.

(** C6 (amended): a request whose body carries a [user_id] that the
    controller's own validation rejects, because it is not hexadecimal for
    [@IsHexadecimal] or because [checkId] rejects it (a length other than
    16, or trailing 4 characters that are not the checksum of the first
    12), is answered with status 400, no note is persisted, and the WRITE
    event of the failure carries the error description sent to the client.
    The empty string, which the checksum test skips, is rejected beforehand
    by [@IsHexadecimal]. *)
Theorem postNoteController_bad_user_id
    (req : Request) (now : Z) (db : Storage) (st : Server) (u : jsstring) :
  isHexadecimal [] = false ->
  user_id (body req) = Some u ->
  checkId u = false \/ isHexadecimal u = false ->
  exists (text : jsstring) (e : Event),
    fst (postNoteController req now db st) = Send 400 text
    /\ notes (snd (postNoteController req now db st)) = notes st
    /\ events (snd (postNoteController req now db st))
       = events st ++ [{| type := WRITE; event := e |}]
    /\ success e = false
    /\ error e = Some text.
Proof.
  intros Hempty Hu Hbad.
  post_paths V C; try (do 2 eexists; repeat split; reflexivity);
    apply validateOrReject_passed in V as (_ & _ & V); simpl in V;
    rewrite Hu in *; simpl in *;
    (destruct Hbad as [Hbad|Hbad]; [|congruence]);
    rewrite Hbad in *; (destruct u; [congruence|discriminate]).
Qed.

End ControllerProperties.

(** * The read path and the expiry sweeper *)

Lemma validate_false_cases (k : jsstring) :
  length k <> 16%nat
  \/ forallb isLowerHex k = false
  \/ slice k 12 16 <> hex4 (crc (slice k 0 12)) ->
  validate k = false.
Proof.
  intros Hk. apply not_true_is_false. unfold validate, str_eqb.
  rewrite !andb_true_iff, bool_decide_eq_true, Nat.eqb_eq.
  intros [[Hl Hh] Hc]. destruct Hk as [Hk|[Hk|Hk]]; congruence.
Qed.

(** C7: a GET whose id is syntactically invalid (wrong length, a character
    that is not lowercase hexadecimal, or a checksum mismatch) is answered
    404 and not 410, whatever the tombstones and the storage layer hold, and
    one failed READ event about the id is appended to the audit log. *)
Theorem getNoteController_invalid_id
    (k client : jsstring) (now : Z) (db : Storage) (st : Server) :
  length k <> 16%nat
  \/ forallb isLowerHex k = false
  \/ slice k 12 16 <> hex4 (crc (slice k 0 12)) ->
  status (fst (getNoteController k client now db st)) = 404
  /\ status (fst (getNoteController k client now db st)) <> 410
  /\ exists e : Event,
       events (snd (getNoteController k client now db st))
         = events st ++ [{| type := READ; event := e |}]
       /\ success e = false
       /\ note_id e = Some k.
Proof.
  intros Hk%validate_false_cases.
  unfold getNoteController, read. rewrite Hk. simpl.
  split; [reflexivity|]. split; [discriminate|].
  eexists. split; [reflexivity|]. split; reflexivity.
Qed.

Lemma eventsAbout_app (ty : EventType) (k : jsstring) (l1 l2 : list AuditEvent) :
  eventsAbout ty k (l1 ++ l2) = eventsAbout ty k l1 ++ eventsAbout ty k l2.
Proof. apply List.filter_app. Qed.

Lemma eventsAbout_purge_absent (k : jsstring) (l : list (jsstring * EncryptedNote)) :
  k ∉ l.*1 -> eventsAbout PURGE k (map purgeEvent l) = [].
Proof.
  induction l as [|[k' n'] l IH]; intros Hk; [reflexivity|].
  simpl in *. rewrite not_elem_of_cons in Hk. destruct Hk as [Hne Hk].
  rewrite bool_decide_eq_false_2; [apply IH, Hk|].
  intros [_ [= E]]. congruence.
Qed.

Lemma eventsAbout_purge_present (k : jsstring) (n : EncryptedNote)
    (l : list (jsstring * EncryptedNote)) :
  NoDup l.*1 -> (k, n) ∈ l ->
  eventsAbout PURGE k (map purgeEvent l) = [purgeEvent (k, n)].
Proof.
  induction l as [|[k' n'] l IH]; intros ND Hin; [inversion Hin|].
  simpl in ND. apply NoDup_cons in ND as [Hk' ND].
  apply elem_of_cons in Hin as [[= <- <-]|Hin]; simpl.
  - rewrite bool_decide_eq_true_2 by (split; reflexivity).
    f_equal. apply eventsAbout_purge_absent, Hk'.
  - rewrite bool_decide_eq_false_2; [apply IH; assumption|].
    intros [_ [= E]]. subst k'. apply Hk'.
    apply list_elem_of_fmap. exists (k, n). split; [reflexivity|exact Hin].
Qed.

(** C1: a note whose [expire_time] has passed is still served (200) by a
    GET until the sweeper runs; after the sweeper has run, a GET for the
    same id is answered 410, and the audit log holds exactly one PURGE event
    about the id, with [success = true] and [size_bytes] the sum of the
    lengths of the stored ciphertext and hmac. *)
Theorem expired_note_lifecycle
    (k client : jsstring) (note : EncryptedNote) (t1 t2 t3 : Z)
    (db1 db2 db3 : Storage) (st : Server) :
  notes st !! k = Some note ->
  validate k = true ->
  (expire_time note < t1)%Z -> (t1 <= t2)%Z ->
  fault db1 = None -> fault db2 = None -> fault db3 = None ->
  eventsAbout PURGE k (events st) = [] ->
  let r1 := getNoteController k client t1 db1 st in
  let r2 := deleteExpiredNotes t2 db2 (snd r1) in
  let r3 := getNoteController k client t3 db3 (snd r2) in
  fst r1 = JsonNote note
  /\ status (fst r1) = 200
  /\ status (fst r3) = 410
  /\ exists e : Event,
       eventsAbout PURGE k (events (snd r3)) = [{| type := PURGE; event := e |}]
       /\ success e = true
       /\ note_id e = Some k
       /\ size_bytes e
          = Some (length (note_ciphertext note) + length (note_hmac note))%nat.
Proof.
  intros Hk Hv Hexp Ht F1 F2 F3 Hlog. cbv zeta.
  assert (R1 : getNoteController k client t1 db1 st
               = (JsonNote note,
                  withEvents st
                    (events st ++
                     [readEvent true client k
                        (Some (length (note_ciphertext note)
                               + length (note_hmac note))%nat) None]))).
  { unfold getNoteController, read. rewrite Hv, F1, Hk. simpl.
    destruct (t1 <? expire_time note)%Z; reflexivity. }
  rewrite R1. simpl fst. simpl snd.
  split; [reflexivity|]. split; [reflexivity|].
  unfold deleteExpiredNotes. rewrite F2. simpl snd.
  set (purged := filter (expired t2) (notes st)).
  assert (Hp : purged !! k = Some note).
  { apply map_lookup_filter_Some. split; [exact Hk|]. unfold expired. simpl. lia. }
  unfold getNoteController, read. rewrite Hv, F3. simpl.
  rewrite map_lookup_filter_None_2
    by (right; intros n Hn; rewrite Hk in Hn; injection Hn as <-;
        unfold expired; simpl; intros Hne; apply Hne; lia).
  rewrite bool_decide_eq_true_2
    by (apply elem_of_union_r, elem_of_dom; eexists; exact Hp).
  simpl. split; [reflexivity|].
  exists (event (purgeEvent (k, note))).
  rewrite !eventsAbout_app, Hlog. simpl.
  rewrite (eventsAbout_purge_present k note).
  - simpl. repeat split; reflexivity.
  - apply NoDup_fst_map_to_list.
  - apply elem_of_map_to_list, Hp.
Qed.

(** * The rate limiter *)

Section LimiterProperties.
Context `{Platform}.

Lemma controller_windows (c : ApiCall) (now : Z) (db : Storage) (st : Server) :
  windows (snd (controller c now db st)) = windows st.
Proof.
  destruct c as [req|k client]; simpl.
  - unfold postNoteController.
    destruct (validateOrReject _); [reflexivity|].
    destruct (truthy _ && negb _); [reflexivity|].
    destruct (createNote _ _ _) as [[?|?] ?]; reflexivity.
  - unfold getNoteController. destruct (read _ _ _ _); reflexivity.
Qed.

Lemma reject_windows (c : ApiCall) (st : Server) :
  windows (snd (reject c st)) = windows st.
Proof. destruct c; reflexivity. Qed.

Lemma reject_status (c : ApiCall) (st : Server) : status (fst (reject c st)) = 429.
Proof. destruct c; reflexivity. Qed.

Lemma allow_live (client : jsstring) (cls : OpClass) (now start : Z) (hits : nat)
    (w : gmap (OpClass * jsstring) (Z * nat)) :
  w !! (cls, client) = Some (start, hits) ->
  (now < start + windowMs)%Z ->
  allow client cls now w
  = if (hits <? budget cls)%nat
    then (true, <[(cls, client) := (start, S hits)]> w)
    else (false, w).
Proof.
  intros Hw Hnow. unfold allow. rewrite Hw.
  apply Z.ltb_lt in Hnow. rewrite Hnow. reflexivity.
Qed.

Lemma allow_fresh (client : jsstring) (cls : OpClass) (now t0 : Z)
    (w : gmap (OpClass * jsstring) (Z * nat)) :
  match w !! (cls, client) with
  | Some (start, _) => (start + windowMs <= t0)%Z
  | None => True
  end ->
  (t0 <= now)%Z -> (0 < budget cls)%nat ->
  allow client cls now w = (true, <[(cls, client) := (now, 1%nat)]> w).
Proof.
  intros Hw Hnow Hb. unfold allow.
  apply Nat.ltb_lt in Hb. rewrite Hb.
  destruct (w !! (cls, client)) as [[start hits]|]; [|reflexivity].
  replace (now <? start + windowMs)%Z with false; [reflexivity|].
  symmetry. apply Z.ltb_ge. lia.
Qed.

Lemma reject_notes (c : ApiCall) (st : Server) :
  notes (snd (reject c st)) = notes st.
Proof. destruct c; reflexivity. Qed.

(** A well-formed request that the storage layer answers, and for which it
    draws an unused identifier, is answered 200 by its controller; the note
    table is then as it was, or has gained the drawn identifier. *)
Lemma controller_wellFormed (c : ApiCall) (now : Z) (db : Storage) (st : Server) :
  wellFormedCall (notes st) c ->
  storageAnswers (c, now, db) ->
  (forall k, k ∈ drawnId (c, now, db) -> notes st !! k = None) ->
  status (fst (controller c now db st)) = 200
  /\ (notes (snd (controller c now db st)) = notes st
      \/ exists (k : jsstring) (v : EncryptedNote),
           drawnId (c, now, db) = [k]
           /\ notes (snd (controller c now db st)) = <[k := v]> (notes st)).
Proof.
  intros Hc [Hf Hr] Hfresh. unfold drawnId in *. simpl in Hf, Hr, Hfresh.
  destruct c as [req|k client]; simpl controller.
  - destruct Hc as [Hv Hu].
    destruct (randoms db) as [|r rs] eqn:R; [congruence|].
    unfold postNoteController. rewrite Hv, Hu.
    unfold createNote. cbn [fst snd]. rewrite Hf, R. simpl.
    rewrite bool_decide_eq_true_2 by (apply Hfresh; left).
    simpl. split; [reflexivity|]. right. do 2 eexists. split; reflexivity.
  - destruct Hc as [Hv [note Hn]].
    unfold getNoteController, read. rewrite Hv, Hf, Hn. simpl.
    destruct (now <? expire_time note)%Z; simpl; auto.
Qed.

(** A body with a non-empty Base64 [ciphertext] and [hmac] and no other
    field, which is what the integration test posts, makes a well-formed
    request. *)
Lemma wellFormedCall_payload (table : gmap jsstring EncryptedNote)
    (ip c h : jsstring) :
  isBase64 c = true -> c <> [] -> isBase64 h = true -> h <> [] ->
  wellFormedCall table
    (PostNote {| connectingIp := ip;
                 body := {| ciphertext := Some c; hmac := Some h;
                            user_id := None; plugin_version := None;
                            crypto_version := None |} |}).
Proof.
  intros Hc Hc' Hh Hh'. split; [|reflexivity].
  unfold validateOrReject, failedProperties. simpl. rewrite Hc, Hh.
  destruct c; [congruence|]. destruct h; [congruence|]. reflexivity.
Qed.

(** The hypotheses on the calls still to come survive a call: well-formed
    requests stay so when the table gains a note, and the identifiers still
    to be drawn stay unused when the table gains the one just drawn. *)
Lemma calls_invariant (table table' : gmap jsstring EncryptedNote)
    (call : ApiCall * Z * Storage) (rest : list (ApiCall * Z * Storage)) :
  Forall (fun call : ApiCall * Z * Storage => wellFormedCall table call.1.1) rest ->
  freshDraws table (call :: rest) ->
  (table' = table
   \/ exists (k : jsstring) (v : EncryptedNote),
        drawnId call = [k] /\ table' = <[k := v]> table) ->
  Forall (fun call : ApiCall * Z * Storage => wellFormedCall table' call.1.1) rest
  /\ freshDraws table' rest.
Proof.
  intros Hwf [Hnd Hfree] Ht. simpl in Hnd, Hfree.
  apply NoDup_app in Hnd as (_ & Hdis & Hnd).
  destruct Ht as [->|(k & v & Hk & ->)].
  { split; [exact Hwf|]. split; [exact Hnd|].
    intros k Hk. apply Hfree, elem_of_app. right. exact Hk. }
  split.
  - eapply Forall_impl; [exact Hwf|]. intros [[c now] db]. simpl.
    destruct c as [req|k' client]; [auto|].
    intros [Hv Hs]. split; [exact Hv|].
    apply lookup_insert_is_Some'. right. exact Hs.
  - split; [exact Hnd|]. intros k' Hk'.
    rewrite lookup_insert_ne.
    + apply Hfree, elem_of_app. right. exact Hk'.
    + intros <-. apply (Hdis k); [rewrite Hk; left|exact Hk'].
Qed.

(** Within a live window the limiter admits calls until the budget is
    used up and rejects the rest; the admitted ones are answered 200. *)
Lemma serve_live (cls : OpClass) (client : jsstring) (start : Z)
    (calls : list (ApiCall * Z * Storage)) :
  forall (st : Server) (hits : nat),
    windows st !! (cls, client) = Some (start, hits) ->
    Forall (fun call : ApiCall * Z * Storage =>
              opClass call.1.1 = cls /\ clientOf call.1.1 = client
              /\ (call.1.2 < start + windowMs)%Z) calls ->
    Forall (fun call : ApiCall * Z * Storage =>
              wellFormedCall (notes st) call.1.1) calls ->
    Forall storageAnswers calls ->
    freshDraws (notes st) calls ->
    map status (fst (serve calls st))
    = repeat 200 (Nat.min (budget cls - hits) (length calls))
      ++ repeat 429 (length calls - (budget cls - hits)).
Proof.
  induction calls as [|[[c now] db] rest IH];
    intros st hits Hw Hcalls Hwf Hdb Hfresh.
  { rewrite Nat.min_0_r. reflexivity. }
  apply Forall_cons in Hcalls as [(Hcls & Hcl & Hnow) Hrest]. simpl in Hcls, Hcl, Hnow.
  apply Forall_cons in Hwf as [Hc Hwf]. simpl in Hc.
  apply Forall_cons in Hdb as [Hs Hdb].
  simpl. unfold handle.
  rewrite Hcls, Hcl, (allow_live client cls now start hits) by assumption.
  destruct (Nat.ltb_spec hits (budget cls)) as [Hlt|Hge]; cbv beta iota zeta.
  - pose proof (controller_wellFormed c now db
                  (withWindows st (<[(cls, client):=(start, S hits)]> (windows st)))
                  Hc Hs) as [Hok Hnotes].
    { intros k Hk. apply (proj2 Hfresh). simpl. apply elem_of_app. left. exact Hk. }
    pose proof (controller_windows c now db
                  (withWindows st (<[(cls, client):=(start, S hits)]> (windows st))))
      as W.
    destruct (controller c now db _) as [r st1]. simpl in W, Hok, Hnotes.
    destruct (calls_invariant (notes st) (notes st1) (c, now, db) rest Hwf Hfresh Hnotes)
      as [Hwf1 Hfresh1].
    specialize (IH st1 (S hits)).
    destruct (serve rest st1) as [rs st2]. simpl in *.
    rewrite Hok, IH; [| rewrite W; apply lookup_insert_eq | assumption..].
    replace (Nat.min (budget cls - hits) (S (length rest)))
      with (S (Nat.min (budget cls - S hits) (length rest))) by lia.
    replace (S (length rest) - (budget cls - hits))%nat
      with (length rest - (budget cls - S hits))%nat by lia.
    reflexivity.
  - pose proof (reject_windows c (withWindows st (windows st))) as W.
    pose proof (reject_status c (withWindows st (windows st))) as S.
    pose proof (reject_notes c (withWindows st (windows st))) as Hnotes.
    destruct (reject c _) as [r st1]. simpl in W, S, Hnotes.
    destruct (calls_invariant (notes st) (notes st1) (c, now, db) rest Hwf Hfresh
                (or_introl Hnotes)) as [Hwf1 Hfresh1].
    specialize (IH st1 hits).
    destruct (serve rest st1) as [rs st2]. simpl in *.
    rewrite S, IH; [| rewrite W; assumption | assumption..].
    replace (budget cls - hits)%nat with 0%nat by lia. simpl.
    rewrite Nat.sub_0_r. reflexivity.
Qed.

(** From a fresh window, a burst longer than the budget is served up to the
    budget and rejected after it. *)
Lemma serve_burst (cls : OpClass) (client : jsstring) (t0 : Z)
    (calls : list (ApiCall * Z * Storage)) (st : Server) :
  Forall (fun call : ApiCall * Z * Storage =>
            opClass call.1.1 = cls /\ clientOf call.1.1 = client
            /\ (t0 <= call.1.2 < t0 + windowMs)%Z) calls ->
  match windows st !! (cls, client) with
  | Some (start, _) => (start + windowMs <= t0)%Z
  | None => True
  end ->
  (0 < budget cls)%nat -> (budget cls < length calls)%nat ->
  Forall (fun call : ApiCall * Z * Storage =>
            wellFormedCall (notes st) call.1.1) calls ->
  Forall storageAnswers calls ->
  freshDraws (notes st) calls ->
  map status (fst (serve calls st))
  = repeat 200 (budget cls) ++ repeat 429 (length calls - budget cls).
Proof.
  intros Hcalls Hwin Hb Hn Hwf Hdb Hfresh.
  destruct calls as [|[[c now] db] rest]; [simpl in Hn; lia|].
  apply Forall_cons in Hcalls as [(Hcls & Hcl & Hnow) Hrest]. simpl in Hcls, Hcl, Hnow.
  apply Forall_cons in Hwf as [Hc Hwf]. simpl in Hc.
  apply Forall_cons in Hdb as [Hs Hdb].
  simpl. unfold handle.
  rewrite Hcls, Hcl, (allow_fresh client cls now t0) by (assumption || lia).
  cbv beta iota zeta.
  pose proof (controller_wellFormed c now db
                (withWindows st (<[(cls, client):=(now, 1%nat)]> (windows st)))
                Hc Hs) as [Hok Hnotes].
  { intros k Hk. apply (proj2 Hfresh). simpl. apply elem_of_app. left. exact Hk. }
  pose proof (controller_windows c now db
                (withWindows st (<[(cls, client):=(now, 1%nat)]> (windows st))))
    as W.
  destruct (controller c now db _) as [r st1]. simpl in W, Hok, Hnotes.
  destruct (calls_invariant (notes st) (notes st1) (c, now, db) rest Hwf Hfresh Hnotes)
    as [Hwf1 Hfresh1].
  pose proof (serve_live cls client now rest st1 1) as L.
  destruct (serve rest st1) as [rs st2]. simpl in *.
  rewrite Hok, L; [| rewrite W; apply lookup_insert_eq | | assumption..].
  - replace (Nat.min (budget cls - 1) (length rest)) with (budget cls - 1)%nat by lia.
    replace (S (length rest) - budget cls)%nat
      with (length rest - (budget cls - 1))%nat by lia.
    destruct (budget cls) as [|b]; [lia|]. simpl. rewrite Nat.sub_0_r. reflexivity.
  - eapply Forall_impl; [exact Hrest|].
    intros call (? & ? & ?). repeat split; try assumption. lia.
Qed.

(** C9: when a burst of well-formed requests to one endpoint from one
    client exceeds the budget of the window it falls in, the response
    statuses contain at least one 429 and at least one 200, and no status
    other than 200 and 429.  The requests are well formed in that their
    controller accepts them: valid bodies for POST, valid ids of stored
    notes for GET.  The storage layer is taken to answer during the burst
    and to draw unused identifiers for the notes it creates. *)
Theorem burst_over_budget (cls : OpClass) (client : jsstring) (t0 : Z)
    (calls : list (ApiCall * Z * Storage)) (st : Server) :
  Forall (fun call : ApiCall * Z * Storage =>
            opClass call.1.1 = cls /\ clientOf call.1.1 = client
            /\ (t0 <= call.1.2 < t0 + windowMs)%Z) calls ->
  match windows st !! (cls, client) with
  | Some (start, _) => (start + windowMs <= t0)%Z
  | None => True
  end ->
  (0 < budget cls)%nat -> (budget cls < length calls)%nat ->
  Forall (fun call : ApiCall * Z * Storage =>
            wellFormedCall (notes st) call.1.1) calls ->
  Forall storageAnswers calls ->
  freshDraws (notes st) calls ->
  In 429 (map status (fst (serve calls st)))
  /\ In 200 (map status (fst (serve calls st)))
  /\ Forall (fun s => s = 200 \/ s = 429) (map status (fst (serve calls st))).
Proof.
  intros Hcalls Hwin Hb Hn Hwf Hdb Hfresh.
  rewrite (serve_burst cls client t0 calls st) by assumption.
  split; [|split].
  - apply in_or_app. right.
    destruct (length calls - budget cls)%nat eqn:E; [lia|]. left. reflexivity.
  - apply in_or_app. left.
    destruct (budget cls); [lia|]. left. reflexivity.
  - apply Forall_app. split; apply Forall_forall; intros s Hs;
      apply list_elem_of_In, repeat_spec in Hs; auto.
Qed.

End LimiterProperties.

(** * The properties on the fixtures *)

Example post_testNote_status :
  status (fst (postNoteController (H := testPlatform) testRequest 1000
                 (healthy (js "0123456789ab")) emptyServer)) = 200.
Proof. vm_compute. reflexivity. Qed.

Example post_empty_body_status :
  status (fst (postNoteController (H := testPlatform)
                 {| connectingIp := js "127.0.0.1";
                    body := {| ciphertext := None; hmac := None; user_id := None;
                               plugin_version := None; crypto_version := None |} |}
                 1000 (healthy (js "0123456789ab")) emptyServer)) = 400.
Proof. vm_compute. reflexivity. Qed.

Example get_expired_status :
  status (fst (getNoteController (js "0000000000004686") (js "127.0.0.1") 1000
                 (healthy []) expiredServer)) = 200.
Proof. vm_compute. reflexivity. Qed.

Example get_burst_statuses :
  map status
    (fst (serve (H := testPlatform)
            (repeat (GetNote (js "0000000000004686") (js "127.0.0.1"),
                     10%Z, healthy []) 4)
            expiredServer))
  = [200; 200; 429; 429].
Proof. vm_compute. reflexivity. Qed.

Example burst_statuses :
  map status (fst (serve (H := testPlatform) testBurst emptyServer))
  = [200; 200; 429].
Proof. vm_compute. reflexivity. Qed.

Lemma expired_note_lifecycle_witness :
  let k := js "0000000000004686" in
  let client := js "127.0.0.1" in
  let r1 := getNoteController k client 1000 (healthy []) expiredServer in
  let r2 := deleteExpiredNotes 2000 (healthy []) (snd r1) in
  let r3 := getNoteController k client 3000 (healthy []) (snd r2) in
  fst r1 = JsonNote expiredNote
  /\ status (fst r1) = 200
  /\ status (fst r3) = 410
  /\ exists e : Event,
       eventsAbout PURGE k (events (snd r3)) = [{| type := PURGE; event := e |}]
       /\ success e = true
       /\ note_id e = Some k
       /\ size_bytes e
          = Some (length (note_ciphertext expiredNote)
                  + length (note_hmac expiredNote))%nat.
Proof.
  apply (expired_note_lifecycle (js "0000000000004686") (js "127.0.0.1")
           expiredNote 1000 2000 3000 (healthy []) (healthy []) (healthy [])
           expiredServer).
  - vm_compute. reflexivity.
  - vm_compute. reflexivity.
  - simpl. lia.
  - lia.
  - reflexivity.
  - reflexivity.
  - reflexivity.
  - reflexivity.
Defined.

Lemma postNoteController_expiry_witness :
  exists (note : EncryptedNote) (e : Event),
    events (snd (postNoteController (H := testPlatform) testRequest 1000
                   (healthy (js "0123456789ab")) emptyServer))
      = events emptyServer ++ [{| type := WRITE; event := e |}]
    /\ note_id e = Some (id note)
    /\ notes emptyServer !! id note = None
    /\ notes (snd (postNoteController (H := testPlatform) testRequest 1000
                     (healthy (js "0123456789ab")) emptyServer)) !! id note
       = Some note
    /\ expire_time note = (1000 + 30 * 86400000)%Z
    /\ (expire_time note - insert_time note
        = 30 * 86400000 - (clock (healthy (js "0123456789ab")) - 1000))%Z
    /\ expire_window_days e = Some 30%Z.
Proof.
  apply (postNoteController_expiry (H := testPlatform) testRequest 1000
           (healthy (js "0123456789ab")) emptyServer).
  vm_compute. reflexivity.
Defined.

Lemma postNoteController_size_bytes_witness :
  exists note : EncryptedNote,
    note_id testWriteEvent = Some (id note)
    /\ notes (snd (postNoteController (H := testPlatform) testRequest 1000
                     (healthy (js "0123456789ab")) emptyServer)) !! id note
       = Some note
    /\ size_bytes testWriteEvent
       = Some (length (note_ciphertext note) + length (note_hmac note))%nat
    /\ ciphertext (body testRequest) = Some (note_ciphertext note)
    /\ hmac (body testRequest) = Some (note_hmac note).
Proof.
  apply (postNoteController_size_bytes (H := testPlatform) testRequest 1000
           (healthy (js "0123456789ab")) emptyServer testWriteEvent).
  - vm_compute. reflexivity.
  - reflexivity.
Defined.

(** C6 (as stated) fails: the [user_id] ["ABCDEFABCDEF7b21"] does not pass
    the identifier validation of section 4.1, its first 12 characters being
    upper case, yet it is hexadecimal for [@IsHexadecimal] and carries the
    checksum of its first 12 characters, so the request is answered 200 and
    its note is persisted. *)
Lemma postNoteController_upper_user_id_accepted :
  user_id (body upperUserRequest) = Some (js "ABCDEFABCDEF7b21")
  /\ validate (js "ABCDEFABCDEF7b21") = false
  /\ status (fst (postNoteController (H := testPlatform) upperUserRequest 1000
                    (healthy (js "0123456789ab")) emptyServer)) = 200
  /\ notes (snd (postNoteController (H := testPlatform) upperUserRequest 1000
                   (healthy (js "0123456789ab")) emptyServer))
     <> notes emptyServer.
Proof.
  split; [reflexivity|]. split; [vm_compute; reflexivity|].
  split; [vm_compute; reflexivity|].
  intros E.
  apply (f_equal (fun table => table !! makeId (js "0123456789ab"))) in E.
  vm_compute in E. discriminate E.
Qed.

Lemma postNoteController_bad_user_id_witness :
  exists (text : jsstring) (e : Event),
    fst (postNoteController (H := testPlatform) badUserRequest 1000
           (healthy (js "0123456789ab")) emptyServer) = Send 400 text
    /\ notes (snd (postNoteController (H := testPlatform) badUserRequest 1000
                     (healthy (js "0123456789ab")) emptyServer))
       = notes emptyServer
    /\ events (snd (postNoteController (H := testPlatform) badUserRequest 1000
                      (healthy (js "0123456789ab")) emptyServer))
       = events emptyServer ++ [{| type := WRITE; event := e |}]
    /\ success e = false
    /\ error e = Some text.
Proof.
  apply (postNoteController_bad_user_id (H := testPlatform) badUserRequest 1000
           (healthy (js "0123456789ab")) emptyServer (js "0000000000004687")).
  - reflexivity.
  - reflexivity.
  - left. vm_compute. reflexivity.
Defined.

Lemma getNoteController_invalid_id_witness :
  status (fst (getNoteController (js "NaN") (js "127.0.0.1") 1000
                 (healthy []) expiredServer)) = 404
  /\ status (fst (getNoteController (js "NaN") (js "127.0.0.1") 1000
                    (healthy []) expiredServer)) <> 410
  /\ exists e : Event,
       events (snd (getNoteController (js "NaN") (js "127.0.0.1") 1000
                      (healthy []) expiredServer))
         = events expiredServer ++ [{| type := READ; event := e |}]
       /\ success e = false
       /\ note_id e = Some (js "NaN").
Proof.
  apply (getNoteController_invalid_id (js "NaN") (js "127.0.0.1") 1000
           (healthy []) expiredServer).
  left. simpl. lia.
Defined.

Lemma burst_over_budget_witness :
  In 429 (map status (fst (serve (H := testPlatform) testBurst emptyServer)))
  /\ In 200 (map status (fst (serve (H := testPlatform) testBurst emptyServer)))
  /\ Forall (fun s => s = 200 \/ s = 429)
            (map status (fst (serve (H := testPlatform) testBurst emptyServer))).
Proof.
  apply (burst_over_budget (H := testPlatform) WriteOp (js "127.0.0.1") 10
           testBurst emptyServer).
  - repeat constructor; simpl; lia.
  - vm_compute. exact I.
  - simpl. lia.
  - simpl. lia.
  - repeat constructor.
  - repeat constructor; simpl; discriminate.
  - split.
    + apply (bool_decide_unpack _). vm_compute. exact I.
    + intros k _. apply lookup_empty.
Defined.

(** The storage layer has to answer: when it fails during the second call
    of the burst, that call, though well formed and admitted, is answered
    500. *)
Example burst_with_failing_storage :
  map status
    (fst (serve (H := testPlatform)
            [(PostNote testRequest, 10%Z, healthy (js "0123456789ab"));
             (PostNote testRequest, 11%Z, failing (js "Error: database is locked"));
             (PostNote testRequest, 12%Z, healthy (js "23456789abcd"))]
            emptyServer))
  = [200; 500; 429].
Proof. vm_compute. reflexivity. Qed.

(** * The Markdown extensions *)

Example link_example :
  InternalLinkExtension.tokenizer (js "[[ My note ]] and more")
  = Some {| Marked.type := js "internal-link"; Marked.raw := js "[[ My note ]]";
            Marked.text := js "My note" |}.
Proof. vm_compute. reflexivity. Qed.

Example link_lazy :
  InternalLinkExtension.tokenizer (js "[[a]] [[b]]")
  = Some {| Marked.type := js "internal-link"; Marked.raw := js "[[a]]";
            Marked.text := js "a" |}.
Proof. vm_compute. reflexivity. Qed.

Example link_empty : InternalLinkExtension.tokenizer (js "[[]]") = None.
Proof. vm_compute. reflexivity. Qed.

Example link_bracket_content :
  InternalLinkExtension.tokenizer (js "[[]]]")
  = Some {| Marked.type := js "internal-link"; Marked.raw := js "[[]]]";
            Marked.text := js "]" |}.
Proof. vm_compute. reflexivity. Qed.

Example embed_example :
  InternalEmbedExtension.tokenizer (js "![[image.png]]")
  = Some {| Marked.type := js "internal-embed"; Marked.raw := js "![[image.png]]";
            Marked.text := js "image.png" |}.
Proof. vm_compute. reflexivity. Qed.

Example tag_example :
  TagExtension.tokenizer (js "#todo later")
  = Some {| Marked.type := js "tag"; Marked.raw := js "#todo";
            Marked.text := js "todo" |}.
Proof. vm_compute. reflexivity. Qed.

Example tag_comma :
  TagExtension.tokenizer (js "#todo, later")
  = Some {| Marked.type := js "tag"; Marked.raw := js "#todo,";
            Marked.text := js "todo" |}.
Proof. vm_compute. reflexivity. Qed.

Example tag_at_end : TagExtension.tokenizer (js "#todo") = None.
Proof. vm_compute. reflexivity. Qed.

Example tag_nested_at_end :
  TagExtension.tokenizer (js "#project/alpha")
  = Some {| Marked.type := js "tag"; Marked.raw := js "#project/";
            Marked.text := js "project" |}.
Proof. vm_compute. reflexivity. Qed.

Example tag_start : TagExtension.start (js "see #todo") = Some 4%nat.
Proof. vm_compute. reflexivity. Qed.

Example highlight_greedy :
  HighlightExtension.tokenizer (js "==a== and ==b== c")
  = Some {| Marked.type := js "highlight"; Marked.raw := js "==a== and ==b==";
            Marked.text := js "a== and ==b" |}.
Proof. vm_compute. reflexivity. Qed.

Example highlight_start : HighlightExtension.start (js "a = ==b==") = Some 4%nat.
Proof. vm_compute. reflexivity. Qed.

(** ** The matcher *)

Section MatcherProperties.
Import RegExp.

Lemma pushes_matched (w : jsstring) (m : Match) :
  matched (pushes w m) = matched m ++ w
  /\ gstart (pushes w m) = gstart m /\ gend (pushes w m) = gend m.
Proof.
  unfold pushes. revert m. induction w as [|x w IH]; intros m; simpl.
  - rewrite app_nil_r. auto.
  - destruct (IH (push x m)) as (-> & -> & ->). simpl.
    rewrite <- app_assoc. auto.
Qed.

Lemma pushes_app (a b : jsstring) (m : Match) :
  pushes (a ++ b) m = pushes b (pushes a m).
Proof. apply fold_left_app. Qed.

Lemma plusMore_lazy_eq (p : N -> bool)
    (k : jsstring -> Match -> option Match) (s : jsstring) (m : Match) :
  plusMore false p k s m
  = match k s m with
    | Some r => Some r
    | None =>
        match s with
        | x :: rest => if p x then plusMore false p k rest (push x m) else None
        | [] => None
        end
    end.
Proof. destruct s; reflexivity. Qed.

Lemma plusMore_greedy_eq (p : N -> bool)
    (k : jsstring -> Match -> option Match) (s : jsstring) (m : Match) :
  plusMore true p k s m
  = match
      match s with
      | x :: rest => if p x then plusMore true p k rest (push x m) else None
      | [] => None
      end
    with
    | Some r => Some r
    | None => k s m
    end.
Proof. destruct s; reflexivity. Qed.

(** A lazy repetition stops at the first place where the rest of the
    pattern matches. *)
Lemma plusMore_lazy_first (p : N -> bool)
    (k : jsstring -> Match -> option Match) (a b : jsstring) (r : Match) :
  forall m : Match,
    Forall (fun x => p x = true) a ->
    (forall a1 a2, a = a1 ++ a2 -> a2 <> [] ->
                   k (a2 ++ b) (pushes a1 m) = None) ->
    k b (pushes a m) = Some r ->
    plusMore false p k (a ++ b) m = Some r.
Proof.
  induction a as [|x a IH]; intros m Hp Hk Hr; rewrite plusMore_lazy_eq.
  - simpl in *. rewrite Hr. reflexivity.
  - pose proof (Hk [] (x :: a) eq_refl ltac:(discriminate)) as K0.
    simpl in K0. simpl. rewrite K0.
    apply Forall_cons in Hp as [Hx Hp]. rewrite Hx.
    apply IH; [exact Hp | | exact Hr].
    intros a1 a2 -> Ha2. apply (Hk (x :: a1) a2 eq_refl Ha2).
Qed.

Lemma plusMore_lazy_sound (p : N -> bool)
    (k : jsstring -> Match -> option Match) (s : jsstring) (r : Match) :
  forall m : Match,
    plusMore false p k s m = Some r ->
    exists a b,
      s = a ++ b /\ Forall (fun x => p x = true) a
      /\ k b (pushes a m) = Some r
      /\ forall a1 a2, a = a1 ++ a2 -> a2 <> [] ->
                       k (a2 ++ b) (pushes a1 m) = None.
Proof.
  induction s as [|x s IH]; intros m H; rewrite plusMore_lazy_eq in H.
  - destruct (k [] m) eqn:K; [|discriminate]. injection H as <-.
    exists [], []. repeat split; auto.
    intros a1 a2 E Ha2. symmetry in E. apply app_eq_nil in E as [_ ->]. contradiction.
  - destruct (k (x :: s) m) eqn:K.
    + injection H as <-. exists [], (x :: s). repeat split; auto.
      intros a1 a2 E Ha2. symmetry in E. apply app_eq_nil in E as [_ ->]. contradiction.
    + destruct (p x) eqn:Px; [|discriminate].
      apply IH in H as (a & b & -> & Hp & Hr & Hmin).
      exists (x :: a), b. repeat split; auto.
      intros [|y a1] a2 E Ha2; simpl in E.
      * subst a2. exact K.
      * injection E as <- ->. apply (Hmin a1 a2 eq_refl Ha2).
Qed.

Lemma plusMore_lazy_complete (p : N -> bool)
    (k : jsstring -> Match -> option Match) (a b : jsstring) :
  forall m : Match,
    Forall (fun x => p x = true) a ->
    is_Some (k b (pushes a m)) ->
    is_Some (plusMore false p k (a ++ b) m).
Proof.
  induction a as [|x a IH]; intros m Hp Hr; rewrite plusMore_lazy_eq.
  - simpl in *. destruct Hr as [r ->]. eauto.
  - destruct (k ((x :: a) ++ b) m); [eauto|].
    apply Forall_cons in Hp as [Hx Hp]. simpl. rewrite Hx. apply IH; assumption.
Qed.

(** A greedy repetition prefers the longer match. *)
Lemma plusMore_greedy_deeper (p : N -> bool)
    (k : jsstring -> Match -> option Match) (c s : jsstring) (r : Match) :
  forall m : Match,
    Forall (fun x => p x = true) c ->
    plusMore true p k s (pushes c m) = Some r ->
    plusMore true p k (c ++ s) m = Some r.
Proof.
  induction c as [|x c IH]; intros m Hp Hr; [exact Hr|].
  rewrite plusMore_greedy_eq. apply Forall_cons in Hp as [Hx Hp].
  simpl. rewrite Hx, (IH (push x m) Hp Hr). reflexivity.
Qed.

(** A greedy repetition gives back characters only as far as needed: when
    the rest of the pattern matches nowhere deeper in the run, the
    repetition ends where it stands. *)
Lemma plusMore_greedy_stop (p : N -> bool)
    (k : jsstring -> Match -> option Match) (t u : jsstring) :
  forall m : Match,
    Forall (fun x => p x = true) t ->
    match u with [] => True | y :: _ => p y = false end ->
    (forall t1 t2, t = t1 ++ t2 -> t1 <> [] ->
                   k (t2 ++ u) (pushes t1 m) = None) ->
    plusMore true p k (t ++ u) m = k (t ++ u) m.
Proof.
  induction t as [|x t IH]; intros m Hp Hu Hk; rewrite plusMore_greedy_eq.
  - simpl. destruct u as [|y u]; [reflexivity|]. rewrite Hu. reflexivity.
  - apply Forall_cons in Hp as [Hx Hp]. simpl. rewrite Hx.
    rewrite IH; [| exact Hp | exact Hu |].
    + pose proof (Hk [x] t eq_refl ltac:(discriminate)) as K0.
      simpl in K0. rewrite K0. reflexivity.
    + intros t1 t2 -> Ht1. apply (Hk (x :: t1) t2 eq_refl). discriminate.
Qed.

(** What a match consumes is a prefix of the input. *)
Lemma plusMore_prefix (greedy : bool) (p : N -> bool)
    (k : jsstring -> Match -> option Match) :
  (forall s m r, k s m = Some r ->
                 exists w rest, s = w ++ rest /\ matched r = matched m ++ w) ->
  forall s m r, plusMore greedy p k s m = Some r ->
                exists w rest, s = w ++ rest /\ matched r = matched m ++ w.
Proof.
  intros Hk s. induction s as [|x s IH]; intros m r H.
  - destruct greedy; simpl in H.
    + apply Hk, H.
    + destruct (k [] m) eqn:K; [|discriminate]. injection H as <-. apply Hk, K.
  - assert (D : forall r', plusMore greedy p k s (push x m) = Some r' ->
                exists w rest, x :: s = w ++ rest /\ matched r' = matched m ++ w).
    { intros r' H'. apply IH in H' as (w & rest & -> & E).
      exists (x :: w), rest. split; [reflexivity|].
      rewrite E. simpl. rewrite <- app_assoc. reflexivity. }
    destruct greedy; simpl in H.
    + destruct (p x).
      * destruct (plusMore true p k s (push x m)) eqn:P.
        -- injection H as <-. apply D. reflexivity.
        -- apply Hk, H.
      * apply Hk, H.
    + destruct (k (x :: s) m) eqn:K.
      * injection H as <-. apply Hk, K.
      * destruct (p x); [apply D, H | discriminate].
Qed.

Lemma run_prefix (r : list Item) :
  forall s m res, run r s m = Some res ->
                  exists w rest, s = w ++ rest /\ matched res = matched m ++ w.
Proof.
  induction r as [|item r IH]; intros s m res H.
  - injection H as <-. exists [], s. rewrite app_nil_r. auto.
  - assert (D : forall x s' res', run r s' (push x m) = Some res' ->
                exists w rest, x :: s' = w ++ rest
                               /\ matched res' = matched m ++ w).
    { intros x s' res' H'. apply IH in H' as (w & rest & -> & E).
      exists (x :: w), rest. split; [reflexivity|].
      rewrite E. simpl. rewrite <- app_assoc. reflexivity. }
    destruct item as [c|p|greedy p| |]; simpl in H.
    + destruct s as [|x s]; [discriminate|].
      destruct (x =? c); [apply D, H | discriminate].
    + destruct s as [|x s]; [discriminate|].
      destruct (p x); [apply D, H | discriminate].
    + destruct s as [|x s]; [discriminate|].
      destruct (p x); [|discriminate].
      apply (plusMore_prefix greedy p (run r) IH) in H as (w & rest & -> & E).
      exists (x :: w), rest. split; [reflexivity|].
      rewrite E. simpl. rewrite <- app_assoc. reflexivity.
    + apply IH in H. exact H.
    + apply IH in H. exact H.
Qed.

Lemma run_lits (pre : jsstring) (r : list Item) (s : jsstring) :
  forall m, run (map Lit pre ++ r) (pre ++ s) m = run r s (pushes pre m).
Proof.
  induction pre as [|c pre IH]; intros m; [reflexivity|].
  simpl. rewrite N.eqb_refl. apply IH.
Qed.

Lemma run_lits_inv (pre : jsstring) (r : list Item) :
  forall s m res,
    run (map Lit pre ++ r) s m = Some res ->
    exists s', s = pre ++ s' /\ run r s' (pushes pre m) = Some res.
Proof.
  induction pre as [|c pre IH]; intros s m res H; [exists s; auto|].
  simpl in H. destruct s as [|x s]; [discriminate|].
  destruct (N.eqb_spec x c) as [->|]; [|discriminate].
  apply IH in H as (s' & -> & H). exists s'. auto.
Qed.

Lemma run_close2 (d : N) (s : jsstring) (m : Match) :
  run [Close; Lit d; Lit d] s m
  = if closesWith d s then Some (push d (push d (closeGroup m))) else None.
Proof.
  destruct s as [|x [|y s]]; simpl; try reflexivity;
    destruct (N.eqb_spec x d) as [->|]; try reflexivity.
  destruct (N.eqb_spec y d) as [->|]; reflexivity.
Qed.

Lemma closesWith_true (d : N) (s : jsstring) :
  closesWith d s = true <-> exists rest, s = d :: d :: rest.
Proof.
  split.
  - destruct s as [|x [|y s]]; simpl; try discriminate.
    intros [->%N.eqb_eq ->%N.eqb_eq]%andb_true_iff. eauto.
  - intros [rest ->]. simpl. rewrite N.eqb_refl. reflexivity.
Qed.

Lemma finish_matched (d : N) (m0 : Match) (content : jsstring) :
  matched (finish d m0 content) = matched m0 ++ content ++ [d; d]
  /\ capture (finish d m0 content) = content.
Proof.
  unfold finish, capture. simpl.
  destruct (pushes_matched content (openGroup m0)) as (-> & -> & _). simpl.
  split; [rewrite <- !app_assoc; reflexivity|].
  unfold slice. rewrite <- !app_assoc, drop_app_length, length_app.
  replace (length (matched m0) + length content - length (matched m0))%nat
    with (length content) by lia.
  apply take_app_length.
Qed.

Lemma finish1_matched (c : N) (m0 : Match) (content : jsstring) :
  matched (finish1 c m0 content) = matched m0 ++ content ++ [c]
  /\ capture (finish1 c m0 content) = content.
Proof.
  unfold finish1, capture. simpl.
  destruct (pushes_matched content (openGroup m0)) as (-> & -> & _). simpl.
  split; [rewrite <- !app_assoc; reflexivity|].
  unfold slice. rewrite <- !app_assoc, drop_app_length, length_app.
  replace (length (matched m0) + length content - length (matched m0))%nat
    with (length content) by lia.
  apply take_app_length.
Qed.

Lemma run_group (greedy : bool) (p : N -> bool) (r : list Item)
    (s : jsstring) (m : Match) :
  run (Open :: Plus greedy p :: r) s m
  = match s with
    | x :: rest =>
        if p x then plusMore greedy p (run r) rest (push x (openGroup m))
        else None
    | [] => None
    end.
Proof. destruct s; reflexivity. Qed.

(** The group of a link: a lazy run of characters other than the newline,
    closed by two brackets. *)
Lemma run_lazy_group (d : N) (p : N -> bool) (s : jsstring) (m0 res : Match) :
  run [Open; Plus false p; Close; Lit d; Lit d] s m0 = Some res ->
  exists content rest,
    s = content ++ d :: d :: rest
    /\ content <> []
    /\ Forall (fun x => p x = true) content
    /\ shortest d content rest
    /\ res = finish d m0 content.
Proof.
  rewrite run_group. destruct s as [|x s]; [discriminate|].
  destruct (p x) eqn:Px; [|discriminate]. intros H.
  apply plusMore_lazy_sound in H as (a & b & -> & Hp & Hk & Hmin).
  rewrite run_close2 in Hk.
  destruct (closesWith d b) eqn:Hb; [|discriminate].
  apply closesWith_true in Hb as [rest ->]. injection Hk as <-.
  exists (x :: a), rest.
  split; [reflexivity|]. split; [discriminate|].
  split; [constructor; assumption|]. split; [|reflexivity].
  intros [|y a1] a2 E Ha1 Ha2; [contradiction|].
  injection E as <- ->.
  specialize (Hmin a1 a2 eq_refl Ha2). rewrite run_close2 in Hmin.
  destruct (closesWith d (a2 ++ d :: d :: rest)); [discriminate|reflexivity].
Qed.

Lemma run_lazy_group_shortest (d : N) (p : N -> bool) (content rest : jsstring)
    (m0 : Match) :
  content <> [] ->
  Forall (fun x => p x = true) content ->
  shortest d content rest ->
  run [Open; Plus false p; Close; Lit d; Lit d] (content ++ d :: d :: rest) m0
  = Some (finish d m0 content).
Proof.
  intros Hne Hp Hmin. destruct content as [|x a]; [contradiction|].
  apply Forall_cons in Hp as [Px Hp].
  rewrite <- app_comm_cons, run_group. cbv beta iota. rewrite Px.
  apply plusMore_lazy_first; [exact Hp | |].
  - intros a1 a2 -> Ha2. rewrite run_close2.
    rewrite (Hmin (x :: a1) a2 eq_refl); [reflexivity|discriminate|exact Ha2].
  - rewrite run_close2. unfold closesWith. rewrite N.eqb_refl. reflexivity.
Qed.

Lemma run_lazy_group_some (d : N) (p : N -> bool) (content rest : jsstring)
    (m0 : Match) :
  content <> [] ->
  Forall (fun x => p x = true) content ->
  is_Some (run [Open; Plus false p; Close; Lit d; Lit d]
             (content ++ d :: d :: rest) m0).
Proof.
  intros Hne Hp. destruct content as [|x a]; [contradiction|].
  apply Forall_cons in Hp as [Px Hp].
  rewrite <- app_comm_cons, run_group. cbv beta iota. rewrite Px.
  apply plusMore_lazy_complete; [exact Hp|].
  rewrite run_close2. unfold closesWith. rewrite N.eqb_refl. eauto.
Qed.

(** ** [trim] *)

Lemma trimEnd_snoc (s : jsstring) (c : N) :
  trimEnd (s ++ [c]) = if isSpace c then trimEnd s else s ++ [c].
Proof.
  unfold trimEnd. rewrite rev_app_distr. simpl.
  destruct (isSpace c); [reflexivity|].
  simpl. rewrite rev_involutive. reflexivity.
Qed.

Lemma trimEnd_cons (c : N) (s : jsstring) :
  isSpace c = false -> trimEnd (c :: s) = c :: trimEnd s.
Proof.
  intros Hc. induction s as [|d s IH] using rev_ind.
  - unfold trimEnd. simpl. rewrite Hc. reflexivity.
  - rewrite app_comm_cons, !trimEnd_snoc, IH.
    destruct (isSpace d); reflexivity.
Qed.

Lemma trimEnd_prefix (s : jsstring) : exists t, s = trimEnd s ++ t.
Proof.
  induction s as [|d s [t IH]] using rev_ind; [exists []; reflexivity|].
  rewrite trimEnd_snoc. destruct (isSpace d).
  - exists (t ++ [d]). rewrite app_assoc, <- IH. reflexivity.
  - exists []. rewrite app_nil_r. reflexivity.
Qed.

(** A string whose first and last characters are not white space is its
    own [trim]. *)
Lemma trim_keep (c d : N) (s : jsstring) :
  isSpace c = false -> isSpace d = false ->
  trim (c :: s ++ [d]) = c :: s ++ [d].
Proof.
  intros Hc Hd. unfold trim. simpl. rewrite Hc.
  rewrite app_comm_cons, trimEnd_snoc, Hd. reflexivity.
Qed.

Lemma trim_prefix (c : N) (s : jsstring) :
  isSpace c = false ->
  exists w t, trim (c :: s) = c :: w /\ c :: s = trim (c :: s) ++ t.
Proof.
  intros Hc. unfold trim. simpl. rewrite Hc, (trimEnd_cons c s Hc).
  destruct (trimEnd_prefix s) as [t Ht].
  exists (trimEnd s), t. split; [reflexivity|]. simpl. congruence.
Qed.

End MatcherProperties.

(** ** Internal links and embeds *)

Lemma token_finish (ty : jsstring) (c d : N) (pre content : jsstring) :
  isSpace c = false -> isSpace d = false ->
  Marked.token ty (RegExp.finish d (RegExp.pushes (c :: pre) RegExp.init) content)
  = {| Marked.type := ty;
       Marked.raw := (c :: pre) ++ content ++ [d; d];
       Marked.text := trim content |}.
Proof.
  intros Hc Hd. unfold Marked.token.
  destruct (finish_matched d (RegExp.pushes (c :: pre) RegExp.init) content)
    as [-> ->].
  destruct (pushes_matched (c :: pre) RegExp.init) as (-> & _).
  f_equal. simpl.
  replace (pre ++ content ++ [d; d]) with ((pre ++ content ++ [d]) ++ [d])
    by (rewrite <- !app_assoc; reflexivity).
  apply trim_keep; assumption.
Qed.

(** The matches of [pre([^\n]+?)]\]] for a literal opening [pre]. *)
Lemma exec_link_like (pre src : jsstring) (m : RegExp.Match) :
  RegExp.exec
    (map RegExp.Lit pre
     ++ [RegExp.Open; RegExp.Plus false (fun c => negb (c =? 10)); RegExp.Close;
         RegExp.Lit 93; RegExp.Lit 93]) src = Some m ->
  exists content rest,
    src = pre ++ content ++ 93 :: 93 :: rest
    /\ content <> []
    /\ forallb (fun c => negb (c =? 10)) content = true
    /\ RegExp.shortest 93 content rest
    /\ m = RegExp.finish 93 (RegExp.pushes pre RegExp.init) content.
Proof.
  unfold RegExp.exec. intros H.
  apply run_lits_inv in H as (s' & -> & H).
  apply run_lazy_group in H as (content & rest & -> & Hne & Hp & Hmin & ->).
  exists content, rest. repeat split; auto.
  apply forallb_forall. intros x Hx. rewrite List.Forall_forall in Hp. auto.
Qed.

Lemma exec_link_like_shortest (pre content rest : jsstring) :
  content <> [] ->
  forallb (fun c => negb (c =? 10)) content = true ->
  RegExp.shortest 93 content rest ->
  RegExp.exec
    (map RegExp.Lit pre
     ++ [RegExp.Open; RegExp.Plus false (fun c => negb (c =? 10)); RegExp.Close;
         RegExp.Lit 93; RegExp.Lit 93]) (pre ++ content ++ 93 :: 93 :: rest)
  = Some (RegExp.finish 93 (RegExp.pushes pre RegExp.init) content).
Proof.
  intros Hne Hp Hmin. unfold RegExp.exec. rewrite run_lits.
  apply run_lazy_group_shortest; auto.
  apply List.Forall_forall. intros x Hx. rewrite forallb_forall in Hp. auto.
Qed.

Lemma shortest_no_bracket (content rest : jsstring) :
  forallb (fun c => negb (c =? 93)) content = true ->
  RegExp.shortest 93 content rest.
Proof.
  intros Hp a1 a2 -> _ Ha2.
  rewrite forallb_app in Hp. apply andb_true_iff in Hp as [_ Hp].
  destruct a2 as [|y a2]; [contradiction|]. simpl in Hp.
  apply andb_true_iff in Hp as [Hy _]. apply negb_true_iff in Hy.
  destruct a2; simpl; rewrite Hy; reflexivity.
Qed.

(** X9: a link whose name is not empty and holds neither a newline nor a
    closing bracket is tokenized as an [internal-link] whose [raw] is the
    link with its brackets and whose [text] is the trimmed name, whatever
    follows it. *)
Theorem internal_link_round_trip (name rest : jsstring) :
  name <> [] ->
  forallb (fun c => negb (c =? 10) && negb (c =? 93)) name = true ->
  InternalLinkExtension.tokenizer (js "[[" ++ name ++ js "]]" ++ rest)
  = Some {| Marked.type := js "internal-link";
            Marked.raw := js "[[" ++ name ++ js "]]";
            Marked.text := trim name |}.
Proof.
  intros Hne Hp.
  assert (H10 : forallb (fun c => negb (c =? 10)) name = true).
  { apply forallb_forall. intros x Hx. rewrite forallb_forall in Hp.
    apply Hp in Hx. apply andb_true_iff in Hx as [Hx _]. exact Hx. }
  assert (H93 : forallb (fun c => negb (c =? 93)) name = true).
  { apply forallb_forall. intros x Hx. rewrite forallb_forall in Hp.
    apply Hp in Hx. apply andb_true_iff in Hx as [_ Hx]. exact Hx. }
  unfold InternalLinkExtension.tokenizer.
  change InternalLinkExtension.pattern
    with (map RegExp.Lit [91; 91]
          ++ [RegExp.Open; RegExp.Plus false (fun c => negb (c =? 10));
              RegExp.Close; RegExp.Lit 93; RegExp.Lit 93]).
  change (js "[[") with [91; 91]. change (js "]]") with [93; 93].
  change ([93; 93] ++ rest) with (93 :: 93 :: rest).
  rewrite (exec_link_like_shortest [91; 91] name rest Hne H10
             (shortest_no_bracket name rest H93)).
  rewrite token_finish by reflexivity. reflexivity.
Qed.

Lemma internal_link_round_trip_witness :
  InternalLinkExtension.tokenizer (js "[[" ++ js " My note " ++ js "]]" ++ js " and more")
  = Some {| Marked.type := js "internal-link";
            Marked.raw := js "[[" ++ js " My note " ++ js "]]";
            Marked.text := trim (js " My note ") |}.
Proof.
  apply (internal_link_round_trip (js " My note ") (js " and more")).
  - discriminate.
  - reflexivity.
Defined.

(** X10: when the link tokenizer returns a token, the source begins with
    [[[], a content that is not empty and holds no newline, and []]]; the
    token's [raw] is that bracketed link, its [text] the trimmed content;
    the content is the shortest one possible (the match is lazy). *)
Theorem internal_link_sound (src : jsstring) (t : Marked.Token) :
  InternalLinkExtension.tokenizer src = Some t ->
  exists content rest,
    src = js "[[" ++ content ++ js "]]" ++ rest
    /\ content <> []
    /\ forallb (fun c => negb (c =? 10)) content = true
    /\ t = {| Marked.type := js "internal-link";
              Marked.raw := js "[[" ++ content ++ js "]]";
              Marked.text := trim content |}
    /\ forall content' rest',
         src = js "[[" ++ content' ++ js "]]" ++ rest' -> content' <> [] ->
         (length content <= length content')%nat.
Proof.
  unfold InternalLinkExtension.tokenizer.
  destruct (RegExp.exec InternalLinkExtension.pattern src) as [m|] eqn:E;
    [|discriminate].
  intros [= <-].
  apply (exec_link_like [91; 91]) in E
    as (content & rest & -> & Hne & Hp & Hmin & ->).
  exists content, rest.
  split; [reflexivity|]. split; [exact Hne|]. split; [exact Hp|].
  split; [apply token_finish; reflexivity|].
  intros content' rest' E Hne'.
  change (js "[[") with [91; 91] in E. change (js "]]") with [93; 93] in E.
  apply app_inv_head in E.
  apply app_eq_inv in E as [(k & -> & E)|(k & -> & _)];
    rewrite length_app; [|lia].
  destruct k as [|y k]; [simpl; lia|].
  specialize (Hmin content' (y :: k) eq_refl Hne' ltac:(discriminate)).
  rewrite <- E in Hmin. discriminate Hmin.
Qed.

Lemma internal_link_sound_witness :
  exists content rest,
    js "[[a]] [[b]]" = js "[[" ++ content ++ js "]]" ++ rest
    /\ content <> []
    /\ forallb (fun c => negb (c =? 10)) content = true
    /\ {| Marked.type := js "internal-link"; Marked.raw := js "[[a]]";
          Marked.text := js "a" |}
       = {| Marked.type := js "internal-link";
            Marked.raw := js "[[" ++ content ++ js "]]";
            Marked.text := trim content |}
    /\ forall content' rest',
         js "[[a]] [[b]]" = js "[[" ++ content' ++ js "]]" ++ rest' ->
         content' <> [] -> (length content <= length content')%nat.
Proof.
  apply (internal_link_sound (js "[[a]] [[b]]")). vm_compute. reflexivity.
Defined.

(** X11: the link tokenizer returns a token exactly when the source begins
    with [[[], at least one character, and []]] with no newline before the
    closing brackets; an unclosed link, an empty one and one broken by a
    newline give [false]. *)
Theorem internal_link_matches_iff (src : jsstring) :
  is_Some (InternalLinkExtension.tokenizer src) <->
  exists content rest,
    src = js "[[" ++ content ++ js "]]" ++ rest
    /\ content <> []
    /\ forallb (fun c => negb (c =? 10)) content = true.
Proof.
  split.
  - intros [t Ht]. unfold InternalLinkExtension.tokenizer in Ht.
    destruct (RegExp.exec InternalLinkExtension.pattern src) as [m|] eqn:E;
      [|discriminate].
    apply (exec_link_like [91; 91]) in E
      as (content & rest & -> & Hne & Hp & _).
    exists content, rest. auto.
  - intros (content & rest & -> & Hne & Hp).
    unfold InternalLinkExtension.tokenizer, RegExp.exec.
    change InternalLinkExtension.pattern
      with (map RegExp.Lit [91; 91]
            ++ [RegExp.Open; RegExp.Plus false (fun c => negb (c =? 10));
                RegExp.Close; RegExp.Lit 93; RegExp.Lit 93]).
    change (js "[[") with [91; 91]. change (js "]]") with [93; 93].
    change ([93; 93] ++ rest) with (93 :: 93 :: rest).
    rewrite run_lits.
    destruct (run_lazy_group_some 93 (fun c => negb (c =? 10)) content rest
                (RegExp.pushes [91; 91] RegExp.init) Hne) as [m ->]; [|eauto].
    apply List.Forall_forall. intros x Hx. rewrite forallb_forall in Hp. auto.
Qed.

Lemma internal_link_matches_iff_witness :
  is_Some (InternalLinkExtension.tokenizer (js "[[a]b]] c")).
Proof.
  apply (internal_link_matches_iff (js "[[a]b]] c")).
  exists (js "a]b"), (js " c"). split; [reflexivity|].
  split; [discriminate | reflexivity].
Defined.

(** X12: an embed is a link behind an exclamation mark: on [!] followed by
    [s] the embed tokenizer answers as the link tokenizer does on [s], with
    type [internal-embed] and the [!] in front of [raw]; on a source that
    does not begin with [!] it returns [false]. *)
Theorem internal_embed_is_link (s : jsstring) :
  InternalEmbedExtension.tokenizer (33 :: s)
  = (fun t => {| Marked.type := js "internal-embed";
                 Marked.raw := 33 :: Marked.raw t;
                 Marked.text := Marked.text t |})
      <$> InternalLinkExtension.tokenizer s
  /\ (head s <> Some 33 -> InternalEmbedExtension.tokenizer s = None).
Proof.
  assert (PE : InternalEmbedExtension.pattern
               = map RegExp.Lit [33; 91; 91]
                 ++ [RegExp.Open; RegExp.Plus false (fun c => negb (c =? 10));
                     RegExp.Close; RegExp.Lit 93; RegExp.Lit 93]) by reflexivity.
  assert (PL : InternalLinkExtension.pattern
               = map RegExp.Lit [91; 91]
                 ++ [RegExp.Open; RegExp.Plus false (fun c => negb (c =? 10));
                     RegExp.Close; RegExp.Lit 93; RegExp.Lit 93]) by reflexivity.
  split.
  - unfold InternalEmbedExtension.tokenizer, InternalLinkExtension.tokenizer.
    destruct (RegExp.exec InternalLinkExtension.pattern s) as [m|] eqn:L.
    + rewrite PL in L. apply exec_link_like in L
        as (content & rest & -> & Hne & Hp & Hmin & ->).
      rewrite PE.
      change (33 :: [91; 91] ++ content ++ 93 :: 93 :: rest)
        with ([33; 91; 91] ++ content ++ 93 :: 93 :: rest).
      rewrite (exec_link_like_shortest [33; 91; 91] content rest Hne Hp Hmin).
      rewrite !token_finish by reflexivity. reflexivity.
    + destruct (RegExp.exec InternalEmbedExtension.pattern (33 :: s))
        as [m|] eqn:E; [|reflexivity].
      rewrite PE in E. apply exec_link_like in E
        as (content & rest & Hs & Hne & Hp & Hmin & _).
      assert (Es : s = [91; 91] ++ content ++ 93 :: 93 :: rest)
        by (injection Hs as ->; reflexivity).
      subst s.
      rewrite PL, (exec_link_like_shortest [91; 91] content rest Hne Hp Hmin) in L.
      discriminate L.
  - intros Hs. unfold InternalEmbedExtension.tokenizer.
    destruct (RegExp.exec InternalEmbedExtension.pattern s) as [m|] eqn:E;
      [|reflexivity].
    rewrite PE in E. apply exec_link_like in E as (content & rest & -> & _).
    contradiction Hs. reflexivity.
Qed.

Lemma internal_embed_is_link_witness :
  InternalEmbedExtension.tokenizer (js "#tag ") = None.
Proof.
  apply (internal_embed_is_link (js "#tag ")). discriminate.
Defined.

(** ** Tags *)

Lemma tagChar_not_space (c : N) :
  isWord c || (c =? 47) = true -> isSpace c = false.
Proof.
  unfold isWord, isDigit, isSpace. intros H.
  apply not_true_is_false. intros S.
  repeat (rewrite ?orb_true_iff, ?andb_true_iff, ?N.leb_le, ?N.eqb_eq in H).
  repeat (rewrite ?orb_true_iff, ?andb_true_iff, ?N.leb_le, ?N.eqb_eq in S).
  lia.
Qed.

Lemma run_close1 (q : N -> bool) (s : jsstring) (m : RegExp.Match) :
  RegExp.run [RegExp.Close; RegExp.Class q] s m
  = match s with
    | x :: _ => if q x then Some (RegExp.push x (RegExp.closeGroup m)) else None
    | [] => None
    end.
Proof. destruct s; reflexivity. Qed.

Lemma token_finish1 (ty : jsstring) (c d : N) (pre content : jsstring) :
  isSpace c = false ->
  Marked.token ty
    (RegExp.finish1 d (RegExp.pushes (c :: pre) RegExp.init) content)
  = {| Marked.type := ty;
       Marked.raw := trim ((c :: pre) ++ content ++ [d]);
       Marked.text := trim content |}.
Proof.
  intros Hc. unfold Marked.token.
  destruct (finish1_matched d (RegExp.pushes (c :: pre) RegExp.init) content)
    as [-> ->].
  destruct (pushes_matched (c :: pre) RegExp.init) as (-> & _).
  reflexivity.
Qed.

Lemma trim_tag_name (name : jsstring) :
  forallb (fun c => isWord c || (c =? 47)) name = true -> trim name = name.
Proof.
  intros Hp. destruct name as [|x name]; [reflexivity|].
  assert (Hx : isSpace x = false).
  { apply tagChar_not_space. simpl in Hp. apply andb_true_iff in Hp as [Hx _].
    exact Hx. }
  destruct name as [|y name _] using rev_ind.
  - unfold trim, trimEnd. simpl. rewrite Hx. simpl. rewrite Hx. reflexivity.
  - apply trim_keep; [exact Hx|]. apply tagChar_not_space.
    rewrite app_comm_cons, forallb_app in Hp.
    apply andb_true_iff in Hp as [_ Hp]. simpl in Hp.
    apply andb_true_iff in Hp as [Hy _]. exact Hy.
Qed.

Lemma trim_tag_raw (name : jsstring) (c : N) :
  name <> [] ->
  forallb (fun c => isWord c || (c =? 47)) name = true ->
  trim (35 :: name ++ [c])
  = if isSpace c then 35 :: name else 35 :: name ++ [c].
Proof.
  intros Hne Hp. unfold trim. simpl trimStart.
  rewrite app_comm_cons, trimEnd_snoc. destruct (isSpace c); [|reflexivity].
  destruct name as [|y name _] using rev_ind; [contradiction|].
  rewrite app_comm_cons, trimEnd_snoc.
  rewrite forallb_app in Hp. apply andb_true_iff in Hp as [_ Hp]. simpl in Hp.
  apply andb_true_iff in Hp as [Hy _].
  rewrite (tagChar_not_space y Hy). reflexivity.
Qed.

(** X13: a tag name of word characters and slashes that is followed by any
    other character is tokenized as a [tag] whose [text] is the name; the
    character that ends the tag belongs to the match, so [raw] holds it too
    unless it is white space, which [trim] removes. *)
Theorem tag_round_trip (name rest : jsstring) (c : N) :
  name <> [] ->
  forallb (fun x => isWord x || (x =? 47)) name = true ->
  isWord c || (c =? 47) = false ->
  TagExtension.tokenizer (js "#" ++ name ++ c :: rest)
  = Some {| Marked.type := js "tag";
            Marked.raw := if isSpace c then js "#" ++ name
                          else js "#" ++ name ++ [c];
            Marked.text := name |}.
Proof.
  intros Hne Hp Hc.
  unfold TagExtension.tokenizer, RegExp.exec.
  change TagExtension.pattern
    with (map RegExp.Lit [35]
          ++ [RegExp.Open; RegExp.Plus true (fun c => isWord c || (c =? 47));
              RegExp.Close;
              RegExp.Class (fun c => negb (isWord c) || isSpace c)]).
  change (js "#") with [35]. rewrite run_lits, run_group.
  destruct name as [|x name]; [contradiction|].
  simpl in Hp. apply andb_true_iff in Hp as [Hx Hp].
  rewrite <- app_comm_cons. cbv beta iota. rewrite Hx.
  assert (Hw : isWord c = false) by (apply orb_false_iff in Hc as [? _]; assumption).
  rewrite (plusMore_greedy_deeper _ _ name (c :: rest)
             (RegExp.finish1 c (RegExp.pushes [35] RegExp.init) (x :: name))).
  - rewrite token_finish1 by reflexivity.
    rewrite (trim_tag_name (x :: name))
      by (simpl; rewrite Hx; exact Hp).
    f_equal. f_equal.
    apply (trim_tag_raw (x :: name) c); [discriminate|].
    simpl. rewrite Hx. exact Hp.
  - apply List.Forall_forall. intros y Hy. rewrite forallb_forall in Hp. auto.
  - rewrite plusMore_greedy_eq, Hc, run_close1, Hw. reflexivity.
Qed.

Lemma tag_round_trip_witness :
  TagExtension.tokenizer (js "#" ++ js "project/alpha" ++ 44 :: js " then")
  = Some {| Marked.type := js "tag";
            Marked.raw := if isSpace 44 then js "#" ++ js "project/alpha"
                          else js "#" ++ js "project/alpha" ++ [44];
            Marked.text := js "project/alpha" |}.
Proof.
  apply (tag_round_trip (js "project/alpha") (js " then") 44).
  - discriminate.
  - reflexivity.
  - reflexivity.
Defined.

Lemma tag_tail_none (s : jsstring) (m : RegExp.Match) :
  match s with [] => True | y :: _ => isWord y = true end ->
  RegExp.run [RegExp.Close;
              RegExp.Class (fun c => negb (isWord c) || isSpace c)] s m = None.
Proof.
  intros Hs. rewrite run_close1. destruct s as [|y s]; [reflexivity|].
  rewrite Hs, (tagChar_not_space y) by (rewrite Hs; reflexivity). reflexivity.
Qed.

Lemma word_suffix_head (l1 l2 : jsstring) :
  forallb isWord (l1 ++ l2) = true ->
  match l2 ++ [] with [] => True | y :: _ => isWord y = true end.
Proof.
  rewrite forallb_app, app_nil_r. intros [_ H]%andb_true_iff.
  destruct l2 as [|y l2]; [exact I|]. simpl in H.
  apply andb_true_iff in H as [H _]. exact H.
Qed.

(** X14: a tag made of word characters only that runs to the end of the
    input is not tokenized: the pattern needs one more character after the
    name. *)
Theorem tag_at_end_of_input (name : jsstring) :
  forallb isWord name = true ->
  TagExtension.tokenizer (js "#" ++ name) = None.
Proof.
  intros Hp. unfold TagExtension.tokenizer, RegExp.exec.
  change TagExtension.pattern
    with (map RegExp.Lit [35]
          ++ [RegExp.Open; RegExp.Plus true (fun c => isWord c || (c =? 47));
              RegExp.Close;
              RegExp.Class (fun c => negb (isWord c) || isSpace c)]).
  change (js "#") with [35]. rewrite run_lits, run_group.
  destruct name as [|x name]; [reflexivity|].
  simpl in Hp. apply andb_true_iff in Hp as [Hx Hp]. rewrite Hx. simpl orb.
  cbv beta iota.
  rewrite <- (app_nil_r name) at 1.
  rewrite plusMore_greedy_stop.
  - rewrite tag_tail_none; [reflexivity|].
    apply (word_suffix_head [] name). exact Hp.
  - apply List.Forall_forall. intros y Hy. rewrite forallb_forall in Hp.
    rewrite (Hp y Hy). reflexivity.
  - exact I.
  - intros t1 t2 -> _. apply tag_tail_none, (word_suffix_head t1 t2), Hp.
Qed.

Lemma tag_at_end_of_input_witness : TagExtension.tokenizer (js "#" ++ js "todo") = None.
Proof. apply (tag_at_end_of_input (js "todo")). reflexivity. Defined.

(** X15: when a nested tag runs to the end of the input, the tokenizer
    gives back the last segment: for a name followed by a slash and word
    characters up to the end, the token's [text] is the name only and its
    [raw] ends with the slash. *)
Theorem tag_cut_at_last_slash (name sub : jsstring) :
  name <> [] ->
  forallb (fun x => isWord x || (x =? 47)) name = true ->
  forallb isWord sub = true ->
  TagExtension.tokenizer (js "#" ++ name ++ js "/" ++ sub)
  = Some {| Marked.type := js "tag";
            Marked.raw := js "#" ++ name ++ js "/";
            Marked.text := name |}.
Proof.
  intros Hne Hp Hs.
  unfold TagExtension.tokenizer, RegExp.exec.
  change TagExtension.pattern
    with (map RegExp.Lit [35]
          ++ [RegExp.Open; RegExp.Plus true (fun c => isWord c || (c =? 47));
              RegExp.Close;
              RegExp.Class (fun c => negb (isWord c) || isSpace c)]).
  change (js "#") with [35]. change (js "/" ++ sub) with (47 :: sub).
  rewrite run_lits, run_group.
  destruct name as [|x name]; [contradiction|].
  pose proof Hp as Hp'. simpl in Hp. apply andb_true_iff in Hp as [Hx Hp].
  rewrite <- app_comm_cons. cbv beta iota. rewrite Hx.
  rewrite (plusMore_greedy_deeper _ _ name (47 :: sub)
             (RegExp.finish1 47 (RegExp.pushes [35] RegExp.init) (x :: name))).
  - rewrite token_finish1 by reflexivity.
    rewrite (trim_tag_name (x :: name) Hp').
    f_equal. f_equal.
    apply (trim_tag_raw (x :: name) 47); [discriminate|exact Hp'].
  - apply List.Forall_forall. intros y Hy. rewrite forallb_forall in Hp. auto.
  - rewrite <- (app_nil_r (47 :: sub)).
    rewrite plusMore_greedy_stop.
    + rewrite app_nil_r, run_close1. reflexivity.
    + constructor; [reflexivity|].
      apply List.Forall_forall. intros y Hy. rewrite forallb_forall in Hs.
      rewrite (Hs y Hy). reflexivity.
    + exact I.
    + intros [|z t1] t2 E Ht1; [contradiction|].
      injection E as _ ->. apply tag_tail_none, (word_suffix_head t1 t2), Hs.
Qed.

Lemma tag_cut_at_last_slash_witness :
  TagExtension.tokenizer (js "#" ++ js "project" ++ js "/" ++ js "alpha")
  = Some {| Marked.type := js "tag";
            Marked.raw := js "#" ++ js "project" ++ js "/";
            Marked.text := js "project" |}.
Proof.
  apply (tag_cut_at_last_slash (js "project") (js "alpha")).
  - discriminate.
  - reflexivity.
  - reflexivity.
Defined.

(** ** Highlights *)

Lemma closesWith_head (d : N) (s : jsstring) :
  match s with [] => True | z :: _ => (z =? d) = false end ->
  RegExp.closesWith d s = false.
Proof.
  destruct s as [|z [|y s]]; simpl; intros H; try reflexivity.
  rewrite H. reflexivity.
Qed.

Lemma line_suffix_head (l1 l2 tail : jsstring) :
  forallb (fun c => negb (isLineTerminator c) && negb (c =? 61)) (l1 ++ l2) = true ->
  match tail with [] => true | y :: _ => isLineTerminator y end = true ->
  match l2 ++ tail with [] => True | z :: _ => (z =? 61) = false end.
Proof.
  rewrite forallb_app. intros [_ H]%andb_true_iff Ht.
  destruct l2 as [|z l2]; simpl.
  - destruct tail as [|y tail]; [exact I|].
    unfold isLineTerminator in Ht.
    destruct (N.eqb_spec y 61) as [->|]; [discriminate Ht|reflexivity].
  - simpl in H. apply andb_true_iff in H as [H _].
    apply andb_true_iff in H as [_ H]. apply negb_true_iff in H. exact H.
Qed.

(** X17: a highlight whose content is not empty and holds no line
    terminator is tokenized up to its closing [==] when no [=] follows on
    the same line; the content may itself hold [==], since the match is
    greedy and ends at the last [==] of the line. *)
Theorem highlight_round_trip (content line tail : jsstring) :
  content <> [] ->
  forallb (fun c => negb (isLineTerminator c)) content = true ->
  forallb (fun c => negb (isLineTerminator c) && negb (c =? 61)) line = true ->
  match tail with [] => true | y :: _ => isLineTerminator y end = true ->
  HighlightExtension.tokenizer (js "==" ++ content ++ js "==" ++ line ++ tail)
  = Some {| Marked.type := js "highlight";
            Marked.raw := js "==" ++ content ++ js "==";
            Marked.text := trim content |}.
Proof.
  intros Hne Hp Hline Htail.
  unfold HighlightExtension.tokenizer, RegExp.exec.
  change HighlightExtension.pattern
    with (map RegExp.Lit [61; 61]
          ++ [RegExp.Open;
              RegExp.Plus true (fun c => negb (isLineTerminator c));
              RegExp.Close; RegExp.Lit 61; RegExp.Lit 61]).
  change (js "==") with [61; 61].
  rewrite run_lits, run_group.
  destruct content as [|x content]; [contradiction|].
  simpl in Hp. apply andb_true_iff in Hp as [Hx Hp].
  rewrite <- app_comm_cons. cbv beta iota. rewrite Hx.
  rewrite (plusMore_greedy_deeper _ _ content ([61; 61] ++ line ++ tail)
             (RegExp.finish 61 (RegExp.pushes [61; 61] RegExp.init)
                (x :: content))).
  - rewrite token_finish by reflexivity. reflexivity.
  - apply List.Forall_forall. intros y Hy. rewrite forallb_forall in Hp. auto.
  - rewrite app_assoc, plusMore_greedy_stop.
    + rewrite run_close2. reflexivity.
    + constructor; [reflexivity|]. constructor; [reflexivity|].
      apply List.Forall_forall. intros y Hy. rewrite forallb_forall in Hline.
      apply Hline in Hy. apply andb_true_iff in Hy as [Hy _]. exact Hy.
    + destruct tail as [|y tail]; [exact I|]. rewrite Htail. reflexivity.
    + intros t1 t2 E Ht1. rewrite run_close2.
      destruct t1 as [|a [|b t1]]; [contradiction| |].
      * injection E as _ <-. simpl.
        pose proof (line_suffix_head [] line tail Hline Htail) as Hh.
        destruct (line ++ tail) as [|z s]; [reflexivity|].
        simpl in Hh. rewrite Hh. reflexivity.
      * injection E as _ _ E. subst line.
        rewrite closesWith_head; [reflexivity|].
        apply (line_suffix_head t1 t2 tail Hline Htail).
Qed.

Lemma highlight_round_trip_witness :
  HighlightExtension.tokenizer
    (js "==" ++ js "a== and ==b" ++ js "==" ++ js " c" ++ [10; 61; 61])
  = Some {| Marked.type := js "highlight";
            Marked.raw := js "==" ++ js "a== and ==b" ++ js "==";
            Marked.text := trim (js "a== and ==b") |}.
Proof.
  apply (highlight_round_trip (js "a== and ==b") (js " c") [10; 61; 61]).
  - discriminate.
  - reflexivity.
  - reflexivity.
  - reflexivity.
Defined.

(** ** The extensions together *)

Lemma exec_raw_prefix (ty : jsstring) (c : N) (pre : jsstring)
    (r : list RegExp.Item) (src : jsstring) (m : RegExp.Match) :
  isSpace c = false ->
  RegExp.exec (map RegExp.Lit (c :: pre) ++ r) src = Some m ->
  (exists s', src = (c :: pre) ++ s')
  /\ exists rest, src = Marked.raw (Marked.token ty m) ++ rest
                  /\ Marked.raw (Marked.token ty m) <> [].
Proof.
  intros Hc E. unfold RegExp.exec in E.
  apply run_lits_inv in E as (s' & -> & E).
  split; [eauto|].
  apply run_prefix in E as (w & rest & -> & Em).
  destruct (pushes_matched (c :: pre) RegExp.init) as (Ep & _).
  rewrite Ep in Em. simpl in Em. unfold Marked.token. simpl Marked.raw.
  rewrite Em.
  destruct (trim_prefix c (pre ++ w) Hc) as (ww & t & E1 & E2).
  exists (t ++ rest). split.
  - rewrite (app_assoc (trim (c :: pre ++ w)) t rest), <- E2.
    simpl. rewrite <- app_assoc. reflexivity.
  - rewrite E1. discriminate.
Qed.

(** X19: whenever one of the four tokenizers returns a token, the token's
    [raw] is a prefix of the source that is not empty, and the extension's
    [start] answers index 0 on that source. *)
Theorem tokenizer_raw_prefix (ext : Marked.Extension) (src : jsstring)
    (t : Marked.Token) :
  In ext extensions ->
  Marked.tokenizer ext src = Some t ->
  (exists rest, src = Marked.raw t ++ rest)
  /\ Marked.raw t <> []
  /\ Marked.start ext src = Some 0%nat.
Proof.
  intros Hext Ht.
  destruct Hext as [<-|[<-|[<-|[<-|[]]]]]; simpl in Ht |- *.
  - unfold InternalLinkExtension.tokenizer in Ht.
    destruct (RegExp.exec InternalLinkExtension.pattern src) as [m|] eqn:E;
      [|discriminate].
    injection Ht as <-.
    apply (exec_raw_prefix (js "internal-link") 91 [91]) in E
      as ((s' & ->) & rest & E & Hne); [|reflexivity].
    split; [eauto|]. split; [exact Hne|reflexivity].
  - unfold InternalEmbedExtension.tokenizer in Ht.
    destruct (RegExp.exec InternalEmbedExtension.pattern src) as [m|] eqn:E;
      [|discriminate].
    injection Ht as <-.
    apply (exec_raw_prefix (js "internal-embed") 33 [91; 91]) in E
      as ((s' & ->) & rest & E & Hne); [|reflexivity].
    split; [eauto|]. split; [exact Hne|reflexivity].
  - unfold TagExtension.tokenizer in Ht.
    destruct (RegExp.exec TagExtension.pattern src) as [m|] eqn:E;
      [|discriminate].
    injection Ht as <-.
    apply (exec_raw_prefix (js "tag") 35 []) in E
      as ((s' & ->) & rest & E & Hne); [|reflexivity].
    split; [eauto|]. split; [exact Hne|reflexivity].
  - unfold HighlightExtension.tokenizer in Ht.
    destruct (RegExp.exec HighlightExtension.pattern src) as [m|] eqn:E;
      [|discriminate].
    injection Ht as <-.
    apply (exec_raw_prefix (js "highlight") 61 [61]) in E
      as ((s' & ->) & rest & E & Hne); [|reflexivity].
    split; [eauto|]. split; [exact Hne|reflexivity].
Qed.

Lemma tokenizer_raw_prefix_witness :
  (exists rest, js "#todo later" = js "#todo" ++ rest)
  /\ js "#todo" <> []
  /\ TagExtension.start (js "#todo later") = Some 0%nat.
Proof.
  apply (tokenizer_raw_prefix
           {| Marked.name := js "tag"; Marked.level := js "inline";
              Marked.start := TagExtension.start;
              Marked.tokenizer := TagExtension.tokenizer |}
           (js "#todo later")
           {| Marked.type := js "tag"; Marked.raw := js "#todo";
              Marked.text := js "todo" |}).
  - right. right. left. reflexivity.
  - vm_compute. reflexivity.
Defined.

Lemma tokenizer_head (ext : Marked.Extension) (src : jsstring) (t : Marked.Token) :
  In ext extensions ->
  Marked.tokenizer ext src = Some t ->
  exists c, head src = Some c
            /\ ((c = 91 /\ Marked.name ext = js "internal-link")
                \/ (c = 33 /\ Marked.name ext = js "internal-embed")
                \/ (c = 35 /\ Marked.name ext = js "tag")
                \/ (c = 61 /\ Marked.name ext = js "highlight")).
Proof.
  intros Hext Ht.
  destruct Hext as [<-|[<-|[<-|[<-|[]]]]]; simpl in Ht |- *.
  - unfold InternalLinkExtension.tokenizer, RegExp.exec in Ht.
    destruct (RegExp.run InternalLinkExtension.pattern src RegExp.init)
      as [m|] eqn:E; [|discriminate].
    apply (run_lits_inv [91; 91]) in E as (s' & -> & _).
    exists 91. split; [reflexivity|]. auto.
  - unfold InternalEmbedExtension.tokenizer, RegExp.exec in Ht.
    destruct (RegExp.run InternalEmbedExtension.pattern src RegExp.init)
      as [m|] eqn:E; [|discriminate].
    apply (run_lits_inv [33; 91; 91]) in E as (s' & -> & _).
    exists 33. split; [reflexivity|]. auto.
  - unfold TagExtension.tokenizer, RegExp.exec in Ht.
    destruct (RegExp.run TagExtension.pattern src RegExp.init)
      as [m|] eqn:E; [|discriminate].
    apply (run_lits_inv [35]) in E as (s' & -> & _).
    exists 35. split; [reflexivity|]. auto 6.
  - unfold HighlightExtension.tokenizer, RegExp.exec in Ht.
    destruct (RegExp.run HighlightExtension.pattern src RegExp.init)
      as [m|] eqn:E; [|discriminate].
    apply (run_lits_inv [61; 61]) in E as (s' & -> & _).
    exists 61. split; [reflexivity|]. auto 6.
Qed.

(** X20: the four tokenizers exclude one another: on any source at most
    one extension of the exported list returns a token, so the order of the
    list does not decide which token a source gives. *)
Theorem tokenizers_exclusive (e1 e2 : Marked.Extension) (src : jsstring)
    (t1 t2 : Marked.Token) :
  In e1 extensions -> In e2 extensions ->
  Marked.tokenizer e1 src = Some t1 ->
  Marked.tokenizer e2 src = Some t2 ->
  Marked.name e1 = Marked.name e2 /\ t1 = t2.
Proof.
  intros H1 H2 T1 T2.
  destruct (tokenizer_head e1 src t1 H1 T1) as (c1 & Hc1 & D1).
  destruct (tokenizer_head e2 src t2 H2 T2) as (c2 & Hc2 & D2).
  rewrite Hc1 in Hc2. injection Hc2 as <-.
  assert (N : Marked.name e1 = Marked.name e2).
  { destruct D1 as [[-> ->]|[[-> ->]|[[-> ->]|[-> ->]]]];
      destruct D2 as [[E ->]|[[E ->]|[[E ->]|[E ->]]]];
      first [reflexivity | discriminate E]. }
  split; [exact N|].
  destruct H1 as [<-|[<-|[<-|[<-|[]]]]];
    destruct H2 as [<-|[<-|[<-|[<-|[]]]]];
    simpl in N; try discriminate N;
    simpl in T1, T2; congruence.
Qed.

Lemma tokenizers_exclusive_witness :
  js "tag" = js "tag"
  /\ {| Marked.type := js "tag"; Marked.raw := js "#todo";
        Marked.text := js "todo" |}
     = {| Marked.type := js "tag"; Marked.raw := js "#todo";
          Marked.text := js "todo" |}.
Proof.
  apply (tokenizers_exclusive
           {| Marked.name := js "tag"; Marked.level := js "inline";
              Marked.start := TagExtension.start;
              Marked.tokenizer := TagExtension.tokenizer |}
           {| Marked.name := js "tag"; Marked.level := js "inline";
              Marked.start := TagExtension.start;
              Marked.tokenizer := TagExtension.tokenizer |}
           (js "#todo later")).
  - right. right. left. reflexivity.
  - right. right. left. reflexivity.
  - vm_compute. reflexivity.
  - vm_compute. reflexivity.
Defined.

(** * More on the note-posting controller *)

Lemma skipDigits_spec (s : jsstring) :
  exists d, s = d ++ skipDigits s /\ forallb isDigit d = true.
Proof.
  induction s as [|c s (d & Hs & Hd)]; [exists []; auto|].
  simpl. destruct (isDigit c) eqn:Hc.
  - exists (c :: d). simpl. rewrite Hc, Hd. split; [congruence|reflexivity].
  - exists []. auto.
Qed.

Lemma digits1_some (s rest : jsstring) :
  digits1 s = Some rest ->
  exists d, s = d ++ rest /\ d <> [] /\ forallb isDigit d = true.
Proof.
  unfold digits1. destruct s as [|c s]; [discriminate|].
  destruct (isDigit c) eqn:Hc; [|discriminate]. intros [= <-].
  destruct (skipDigits_spec s) as (d & Hs & Hd).
  exists (c :: d). simpl. rewrite Hc, Hd.
  split; [congruence|]. split; [discriminate|reflexivity].
Qed.

Lemma matchesCryptoVersion_cons (c : N) (s : jsstring) :
  matchesCryptoVersion (c :: s) = true ->
  c = 118 /\ exists rest, digits1 s = Some rest /\ rest = [].
Proof.
  unfold matchesCryptoVersion. destruct c as [|p]; [discriminate|].
  do 7 (try (destruct p as [p|p|]; try discriminate)).
  destruct (digits1 s) as [[|]|]; try discriminate. eauto.
Qed.

Lemma matchesCryptoVersion_shape (s : jsstring) :
  matchesCryptoVersion s = true -> isVersionTag s.
Proof.
  destruct s as [|c s]; [discriminate|].
  intros (-> & rest & D & ->)%matchesCryptoVersion_cons.
  apply digits1_some in D as (d & -> & Hne & Hd).
  exists d. rewrite app_nil_r. auto.
Qed.

Lemma dot_first (s : jsstring) (A : Type) (f : jsstring -> A) (a : A) :
  match s with 46 :: rest => f rest | _ => a end
  = match s with
    | c :: rest => if c =? 46 then f rest else a
    | [] => a
    end.
Proof.
  destruct s as [|c rest]; [reflexivity|].
  destruct c as [|p]; [reflexivity|].
  do 6 (try (destruct p as [p|p|]; try reflexivity)).
Qed.

Lemma matchesPluginVersion_shape (s : jsstring) :
  matchesPluginVersion s = true -> isSemver s.
Proof.
  unfold matchesPluginVersion.
  destruct (digits1 s) as [s1|] eqn:D1; [|discriminate].
  rewrite (dot_first s1). destruct s1 as [|x s1]; [discriminate|].
  destruct (N.eqb_spec x 46) as [->|]; [|discriminate].
  destruct (digits1 s1) as [s2|] eqn:D2; [|discriminate].
  rewrite (dot_first s2). destruct s2 as [|y s2]; [discriminate|].
  destruct (N.eqb_spec y 46) as [->|]; [|discriminate].
  destruct (digits1 s2) as [[|]|] eqn:D3; try discriminate. intros _.
  apply digits1_some in D1 as (a & -> & Ha & Hda).
  apply digits1_some in D2 as (b & -> & Hb & Hdb).
  apply digits1_some in D3 as (c & -> & Hc & Hdc).
  exists a, b, c. rewrite app_nil_r. repeat split; auto.
Qed.

Lemma skipDigits_app (d rest : jsstring) :
  forallb isDigit d = true -> skipDigits (d ++ rest) = skipDigits rest.
Proof.
  induction d as [|c d IH]; [reflexivity|]. simpl.
  intros [Hc Hd]%andb_true_iff. rewrite Hc. auto.
Qed.

Lemma digits1_app (d rest : jsstring) :
  d <> [] -> forallb isDigit d = true ->
  digits1 (d ++ rest) = Some (skipDigits rest).
Proof.
  destruct d as [|c d]; [contradiction|]. simpl.
  intros _ [Hc Hd]%andb_true_iff. rewrite Hc, skipDigits_app by exact Hd.
  reflexivity.
Qed.

Lemma isVersionTag_matches (s : jsstring) :
  isVersionTag s -> matchesCryptoVersion s = true.
Proof.
  intros (d & -> & Hne & Hd). unfold matchesCryptoVersion.
  rewrite <- (app_nil_r d), digits1_app by assumption. reflexivity.
Qed.

Lemma isSemver_matches (s : jsstring) :
  isSemver s -> matchesPluginVersion s = true.
Proof.
  intros (a & b & c & -> & Ha & Hb & Hc & Hda & Hdb & Hdc).
  unfold matchesPluginVersion.
  assert (S46 : forall t, skipDigits (46 :: t) = 46 :: t) by reflexivity.
  rewrite digits1_app, S46 by assumption. cbv beta iota.
  rewrite digits1_app, S46 by assumption. cbv beta iota.
  rewrite <- (app_nil_r c), digits1_app by assumption. reflexivity.
Qed.

Section MoreControllerProperties.
Context `{Platform}.

Lemma validateOrReject_passed_versions (r : NotePostRequest) :
  validateOrReject r = None ->
  validateIfPresent matchesPluginVersion (plugin_version r) = true
  /\ holds matchesCryptoVersion (crypto_version r) = true.
Proof.
  unfold validateOrReject.
  destruct (failedProperties r) eqn:E; [intros _|discriminate].
  unfold failedProperties in E.
  repeat (apply app_eq_nil in E as [? E]).
  destruct (validateIfPresent matchesPluginVersion (plugin_version r));
    [|discriminate].
  destruct (holds matchesCryptoVersion (crypto_version r)); [|discriminate].
  auto.
Qed.

(** What a request that fails the body validation gets. *)
Lemma postNoteController_rejected (req : Request) (now : Z) (db : Storage)
    (st : Server) :
  validateOrReject (assignBody (body req)) <> None ->
  exists (text : jsstring) (e : Event),
    fst (postNoteController req now db st) = Send 400 text
    /\ notes (snd (postNoteController req now db st)) = notes st
    /\ events (snd (postNoteController req now db st))
       = events st ++ [{| type := WRITE; event := e |}]
    /\ success e = false
    /\ error e = Some text.
Proof.
  intros V. unfold postNoteController.
  destruct (validateOrReject (assignBody (body req))); [|contradiction].
  do 2 eexists. simpl. repeat split; reflexivity.
Qed.

(** X1: a request whose [ciphertext] or [hmac] is absent or empty is
    answered 400 whatever else the body holds; no note is stored and the
    failed WRITE event carries the text sent to the client. *)
Theorem postNoteController_missing_payload
    (req : Request) (now : Z) (db : Storage) (st : Server) :
  isNotEmpty (ciphertext (body req)) = false
  \/ isNotEmpty (hmac (body req)) = false ->
  exists (text : jsstring) (e : Event),
    fst (postNoteController req now db st) = Send 400 text
    /\ notes (snd (postNoteController req now db st)) = notes st
    /\ events (snd (postNoteController req now db st))
       = events st ++ [{| type := WRITE; event := e |}]
    /\ success e = false
    /\ error e = Some text.
Proof.
  intros Hbad. apply postNoteController_rejected. intros V.
  apply validateOrReject_passed in V as (Vc & Vh & _). simpl in Vc, Vh.
  destruct Hbad; congruence.
Qed.

(** X2: a request whose [crypto_version] is present and is not the letter
    v followed by decimal digits, or whose [plugin_version] is present and
    is not three dot-separated decimal numbers, is answered 400 and nothing
    is stored; these shapes are exactly the ones the two patterns accept. *)
Theorem postNoteController_bad_version
    (req : Request) (now : Z) (db : Storage) (st : Server) (v : jsstring) :
  (crypto_version (body req) = Some v /\ ~ isVersionTag v)
  \/ (plugin_version (body req) = Some v /\ ~ isSemver v) ->
  (exists (text : jsstring) (e : Event),
     fst (postNoteController req now db st) = Send 400 text
     /\ notes (snd (postNoteController req now db st)) = notes st
     /\ events (snd (postNoteController req now db st))
        = events st ++ [{| type := WRITE; event := e |}]
     /\ success e = false
     /\ error e = Some text)
  /\ (forall s, matchesCryptoVersion s = true <-> isVersionTag s)
  /\ (forall s, matchesPluginVersion s = true <-> isSemver s).
Proof.
  intros Hbad. split; [|split].
  - apply postNoteController_rejected. intros V.
    apply validateOrReject_passed_versions in V as (Vp & Vc). simpl in Vp, Vc.
    destruct Hbad as [[E Hv]|[E Hv]]; rewrite E in *; simpl in *.
    + apply Hv, matchesCryptoVersion_shape, Vc.
    + apply Hv, matchesPluginVersion_shape, Vp.
  - intros s. split; [apply matchesCryptoVersion_shape|apply isVersionTag_matches].
  - intros s. split; [apply matchesPluginVersion_shape|apply isSemver_matches].
Qed.

(** X3: every WRITE event carries the connecting address and the
    [user_id] and [plugin_version] of the body exactly as received, valid
    or not; a failed event has an error text and no note id, size or
    retention window, and a successful one has all three and no error. *)
Theorem postNoteController_event_fields
    (req : Request) (now : Z) (db : Storage) (st : Server) :
  exists e : Event,
    events (snd (postNoteController req now db st))
      = events st ++ [{| type := WRITE; event := e |}]
    /\ host e = Some (connectingIp req)
    /\ ev_user_id e = user_id (body req)
    /\ user_plugin_version e = plugin_version (body req)
    /\ (success e = false ->
        is_Some (error e) /\ note_id e = None /\ size_bytes e = None
        /\ expire_window_days e = None)
    /\ (success e = true ->
        error e = None /\ is_Some (note_id e) /\ is_Some (size_bytes e)
        /\ expire_window_days e = Some 30%Z).
Proof.
  post_paths V C; (eexists; split; [reflexivity|]); simpl;
    repeat split; eauto; discriminate.
Qed.

(** X4: a request answered 200 gets the JSON body whose [view_url] is the
    front-end address, [/note/] and the id of the note just stored, and
    whose [expire_time] is the stored one; the same id is in the WRITE
    event. *)
Theorem postNoteController_view_url
    (req : Request) (now : Z) (db : Storage) (st : Server) :
  status (fst (postNoteController req now db st)) = 200 ->
  exists (note : EncryptedNote) (e : Event),
    fst (postNoteController req now db st)
      = JsonCreated (FRONTEND_URL ++ js "/note/" ++ id note) (expire_time note)
    /\ notes (snd (postNoteController req now db st)) !! id note = Some note
    /\ events (snd (postNoteController req now db st))
       = events st ++ [{| type := WRITE; event := e |}]
    /\ note_id e = Some (id note).
Proof.
  post_paths V C; try discriminate. intros _.
  exists saved. eexists. split; [reflexivity|]. simpl.
  split; [apply lookup_insert_eq|]. split; reflexivity.
Qed.

(** X5: when the store fails for a request that passed the body
    validation and the user-id checksum test, the request is handed to
    [next] with the store's error, no note is stored, and the one event
    appended is a failed WRITE event whose error text is that error and
    which names no note. *)
Theorem postNoteController_storage_failure
    (req : Request) (now : Z) (db : Storage) (st : Server) (err : jsstring) :
  fault db = Some err ->
  validateOrReject (assignBody (body req)) = None ->
  match user_id (body req) with
  | Some u => u = [] \/ checkId u = true
  | None => True
  end ->
  fst (postNoteController req now db st) = Next err
  /\ notes (snd (postNoteController req now db st)) = notes st
  /\ exists e : Event,
       events (snd (postNoteController req now db st))
         = events st ++ [{| type := WRITE; event := e |}]
       /\ success e = false
       /\ error e = Some err
       /\ note_id e = None.
Proof.
  intros F V U. unfold postNoteController. rewrite V.
  replace (truthy (user_id (assignBody (body req)))
           && negb (checkId (default [] (user_id (assignBody (body req))))))
    with false.
  - unfold createNote. rewrite F. simpl.
    split; [reflexivity|]. split; [reflexivity|].
    eexists. repeat split; reflexivity.
  - simpl. destruct (user_id (body req)) as [u|]; [|reflexivity].
    destruct U as [->|U]; [reflexivity|].
    simpl. rewrite U. symmetry. apply andb_false_r.
Qed.

End MoreControllerProperties.

Lemma createNote_saved_version (note : NewNote) (db : Storage)
    (table table' : gmap jsstring EncryptedNote) (saved : EncryptedNote) :
  createNote note db table = (inr saved, table') ->
  note_crypto_version saved = new_crypto_version note
  /\ table !! id saved = None
  /\ table' !! id saved = Some saved.
Proof.
  unfold createNote. destruct (fault db); [discriminate|].
  destruct (List.find _ _) as [k|] eqn:F; [|discriminate].
  apply find_some in F as [_ F]. apply bool_decide_eq_true in F.
  intros [= <- <-]. simpl. repeat split; auto. apply lookup_insert_eq.
Qed.

(** X6: a note stored for a body without [crypto_version] has the
    default version [v1]; one stored for a body with a [crypto_version] has
    that version; in both cases the stored version is the letter v followed
    by decimal digits. *)
Theorem postNoteController_crypto_version `{Platform}
    (req : Request) (now : Z) (db : Storage) (st : Server) :
  status (fst (postNoteController req now db st)) = 200 ->
  exists note : EncryptedNote,
    notes st !! id note = None
    /\ notes (snd (postNoteController req now db st)) !! id note = Some note
    /\ note_crypto_version note
       = match crypto_version (body req) with
         | Some v => v
         | None => js "v1"
         end
    /\ isVersionTag (note_crypto_version note).
Proof.
  unfold postNoteController.
  destruct (validateOrReject (assignBody (body req))) as [errs|] eqn:V;
    [discriminate|].
  destruct (truthy _ && negb _); [discriminate|].
  destruct (createNote _ db (notes st)) as [[err|saved] table] eqn:C;
    [discriminate|].
  intros _. apply createNote_saved_version in C as (Hv & Hfree & Hin).
  apply validateOrReject_passed_versions in V as (_ & Vc).
  simpl in Hv, Vc. exists saved. simpl.
  split; [exact Hfree|]. split; [exact Hin|]. rewrite Hv.
  destruct (crypto_version (body req)) as [v|]; simpl in *.
  - split; [reflexivity|]. apply matchesCryptoVersion_shape, Vc.
  - split; [reflexivity|]. apply matchesCryptoVersion_shape. reflexivity.
Qed.

Lemma postNoteController_missing_payload_witness :
  exists (text : jsstring) (e : Event),
    fst (postNoteController (H := testPlatform) emptyRequest 1000
           (healthy (js "0123456789ab")) emptyServer) = Send 400 text
    /\ notes (snd (postNoteController (H := testPlatform) emptyRequest 1000
                     (healthy (js "0123456789ab")) emptyServer))
       = notes emptyServer
    /\ events (snd (postNoteController (H := testPlatform) emptyRequest 1000
                      (healthy (js "0123456789ab")) emptyServer))
       = events emptyServer ++ [{| type := WRITE; event := e |}]
    /\ success e = false
    /\ error e = Some text.
Proof.
  apply (postNoteController_missing_payload (H := testPlatform) emptyRequest
           1000 (healthy (js "0123456789ab")) emptyServer).
  left. reflexivity.
Defined.

Lemma postNoteController_bad_version_witness :
  exists (text : jsstring) (e : Event),
    fst (postNoteController (H := testPlatform) badVersionRequest 1000
           (healthy (js "0123456789ab")) emptyServer) = Send 400 text
    /\ notes (snd (postNoteController (H := testPlatform) badVersionRequest 1000
                     (healthy (js "0123456789ab")) emptyServer))
       = notes emptyServer
    /\ events (snd (postNoteController (H := testPlatform) badVersionRequest
                      1000 (healthy (js "0123456789ab")) emptyServer))
       = events emptyServer ++ [{| type := WRITE; event := e |}]
    /\ success e = false
    /\ error e = Some text.
Proof.
  apply (postNoteController_bad_version (H := testPlatform) badVersionRequest
           1000 (healthy (js "0123456789ab")) emptyServer (js "v1a")).
  left. split; [reflexivity|].
  intros (d & E & _ & Hd). injection E as <-. vm_compute in Hd. discriminate Hd.
Defined.

Lemma postNoteController_view_url_witness :
  exists (note : EncryptedNote) (e : Event),
    fst (postNoteController (H := testPlatform) testRequest 1000
           (healthy (js "0123456789ab")) emptyServer)
      = JsonCreated (FRONTEND_URL (Platform := testPlatform)
                     ++ js "/note/" ++ id note) (expire_time note)
    /\ notes (snd (postNoteController (H := testPlatform) testRequest 1000
                     (healthy (js "0123456789ab")) emptyServer)) !! id note
       = Some note
    /\ events (snd (postNoteController (H := testPlatform) testRequest 1000
                      (healthy (js "0123456789ab")) emptyServer))
       = events emptyServer ++ [{| type := WRITE; event := e |}]
    /\ note_id e = Some (id note).
Proof.
  apply (postNoteController_view_url (H := testPlatform) testRequest 1000
           (healthy (js "0123456789ab")) emptyServer).
  vm_compute. reflexivity.
Defined.

Lemma postNoteController_storage_failure_witness :
  fst (postNoteController (H := testPlatform) testRequest 1000
         (failing (js "Error: database is locked")) emptyServer)
  = Next (js "Error: database is locked")
  /\ notes (snd (postNoteController (H := testPlatform) testRequest 1000
                   (failing (js "Error: database is locked")) emptyServer))
     = notes emptyServer
  /\ exists e : Event,
       events (snd (postNoteController (H := testPlatform) testRequest 1000
                      (failing (js "Error: database is locked")) emptyServer))
         = events emptyServer ++ [{| type := WRITE; event := e |}]
       /\ success e = false
       /\ error e = Some (js "Error: database is locked")
       /\ note_id e = None.
Proof.
  apply (postNoteController_storage_failure (H := testPlatform) testRequest
           1000 (failing (js "Error: database is locked")) emptyServer
           (js "Error: database is locked")).
  - reflexivity.
  - vm_compute. reflexivity.
  - exact I.
Defined.

Lemma postNoteController_crypto_version_witness :
  exists note : EncryptedNote,
    notes emptyServer !! id note = None
    /\ notes (snd (postNoteController (H := testPlatform) testRequest 1000
                     (healthy (js "0123456789ab")) emptyServer)) !! id note
       = Some note
    /\ note_crypto_version note
       = match crypto_version (body testRequest) with
         | Some v => v
         | None => js "v1"
         end
    /\ isVersionTag (note_crypto_version note).
Proof.
  apply (postNoteController_crypto_version (H := testPlatform) testRequest 1000
           (healthy (js "0123456789ab")) emptyServer).
  vm_compute. reflexivity.
Defined.

(** * More on the identifier checksum *)

Lemma crc16_step_high (s b : N) :
  s < 2 ^ 16 ->
  N.shiftr (crc16_step s b) 8
  = N.shiftr (nth (N.to_nat (N.land (N.lxor s b) 0xff)) TABLE 0) 8.
Proof.
  intros Hs. rewrite crc16_step_unmasked by exact Hs.
  rewrite N.shiftr_lxor, (N.shiftr_div_pow2 (N.shiftr s 8) 8).
  rewrite N.div_small by (apply shiftr8_lt, Hs). apply N.lxor_0_r.
Qed.

Lemma crc16_index_inj (s b b' : N) :
  b < 256 -> b' < 256 ->
  N.to_nat (N.land (N.lxor s b) 0xff) = N.to_nat (N.land (N.lxor s b') 0xff) ->
  b = b'.
Proof.
  intros Hb Hb' H. apply N2Nat.inj in H.
  rewrite !land_lxor_distr in H. apply lxor_cancel_l in H.
  change 0xff with (N.ones 8) in H.
  rewrite !land_low in H by assumption. exact H.
Qed.

(** Two steps from the same state reach the same state only for the same
    two bytes. *)
Lemma crc16_two_steps_inj (s b1 b2 b1' b2' : N) :
  s < 2 ^ 16 -> b1 < 256 -> b2 < 256 -> b1' < 256 -> b2' < 256 ->
  crc16_step (crc16_step s b1) b2 = crc16_step (crc16_step s b1') b2' ->
  b1 = b1' /\ b2 = b2'.
Proof.
  intros Hs H1 H2 H1' H2' E.
  assert (B : b1 = b1').
  { pose proof (crc16_step_bound s b1) as U.
    pose proof (crc16_step_bound s b1') as U'.
    pose proof (crc16_step_high s b1 Hs) as G.
    pose proof (crc16_step_high s b1' Hs) as G'.
    remember (crc16_step s b1) as u eqn:Eu.
    remember (crc16_step s b1') as u' eqn:Eu'.
    pose proof (f_equal (fun x => N.shiftr x 8) E) as Hhi. cbv beta in Hhi.
    rewrite !crc16_step_high in Hhi by assumption.
    apply TABLE_high_inj in Hhi; try apply crc16_index_lt.
    rewrite !crc16_step_unmasked in E by assumption.
    rewrite Hhi in E. apply lxor_cancel_l in E.
    rewrite G, G' in E.
    apply TABLE_high_inj in E; try apply crc16_index_lt.
    apply (crc16_index_inj s); assumption. }
  subst b1'. split; [reflexivity|].
  apply (crc16_step_inj_byte (crc16_step s b1)); try assumption.
  apply crc16_step_bound.
Qed.

Lemma crc16_bytes_two_bytes (pre post : list N) (b1 b2 b1' b2' s : N) :
  s < 2 ^ 16 -> b1 < 256 -> b2 < 256 -> b1' < 256 -> b2' < 256 ->
  crc16_bytes (pre ++ b1 :: b2 :: post) s
  = crc16_bytes (pre ++ b1' :: b2' :: post) s ->
  b1 = b1' /\ b2 = b2'.
Proof.
  intros Hs H1 H2 H1' H2' E. unfold crc16_bytes in E.
  rewrite !fold_left_app in E. simpl in E.
  apply (crc16_bytes_inj_state post) in E; try apply crc16_step_bound.
  apply crc16_two_steps_inj in E; try assumption.
  apply (crc16_bytes_bound pre s Hs).
Qed.

(** X7: in a valid identifier built from a 12-character lowercase-hex
    prefix, replacing two adjacent characters of the prefix by one-byte
    characters, at least one of them different, makes [checkId] return
    false; in particular the swap of two adjacent distinct characters is
    detected. *)
Theorem checkId_detects_adjacent_pair (p : jsstring) (i : nat) (c1 c2 : N) :
  length p = 12%nat -> forallb isLowerHex p = true ->
  (S i < 12)%nat -> c1 < 0x80 -> c2 < 0x80 ->
  ~ (p !! i = Some c1 /\ p !! S i = Some c2) ->
  checkId (<[i:=c1]> (<[S i:=c2]> (makeId p))) = false.
Proof.
  intros Hp Hhex Hi Hc1 Hc2 Hne.
  pose proof (hex4_length (crc p) (crc_bound p)) as Hh.
  apply not_true_is_false. intros A.
  apply checkId_true_iff in A as [_ A]. unfold makeId in A.
  rewrite (insert_app_l p) in A by lia.
  rewrite insert_app_l in A by (rewrite length_insert; lia).
  rewrite slice_app_l, slice_app_r in A by (rewrite ?length_insert; assumption).
  apply hex4_inj in A; try apply crc_bound.
  destruct (lookup_lt_is_Some_2 p i ltac:(lia)) as [x Hx].
  destruct (lookup_lt_is_Some_2 p (S i) ltac:(lia)) as [y Hy].
  pose proof (forallb_lower_ascii p Hhex) as Hascii.
  pose proof (Forall_lookup_1 _ _ _ _ Hascii Hx) as Hx'.
  pose proof (Forall_lookup_1 _ _ _ _ Hascii Hy) as Hy'. cbv beta in Hx', Hy'.
  assert (Ep : p = take i p ++ x :: y :: drop (S (S i)) p).
  { rewrite <- (take_drop_middle p i x Hx) at 1. f_equal. f_equal.
    apply drop_S, Hy. }
  assert (Ep' : <[i:=c1]> (<[S i:=c2]> p)
                = take i p ++ c1 :: c2 :: drop (S (S i)) p).
  { rewrite Ep at 1.
    rewrite (insert_app_r_alt (take i p)) by (rewrite length_take; lia).
    rewrite (insert_app_r_alt (take i p)) by (rewrite length_take; lia).
    rewrite !length_take.
    replace (S i - i `min` length p)%nat with 1%nat by lia.
    replace (i - i `min` length p)%nat with 0%nat by lia.
    reflexivity. }
  unfold crc in A. rewrite (utf8_ascii p Hascii) in A.
  rewrite utf8_ascii in A
    by (apply Forall_insert; [apply Forall_insert; assumption|assumption]).
  rewrite Ep' in A. clear Ep'.
  remember (take i p) as pre eqn:Epre. remember (drop (S (S i)) p) as post eqn:Epost.
  rewrite Ep in A.
  apply crc16_bytes_two_bytes in A as [-> ->];
    first [lia | reflexivity | idtac].
  apply Hne. auto.
Qed.

Lemma checkId_detects_adjacent_pair_witness :
  checkId (<[3%nat:=52]> (<[4%nat:=51]> (makeId (js "0123456789ab")))) = false.
Proof.
  apply (checkId_detects_adjacent_pair (js "0123456789ab") 3 52 51).
  - reflexivity.
  - reflexivity.
  - lia.
  - reflexivity.
  - reflexivity.
  - vm_compute. intros [H _]. discriminate H.
Defined.

(** X8: a 12-character random portion has exactly one completion that
    [checkId] accepts: the 4 lowercase hexadecimal digits of its CRC-16. *)
Theorem checkId_unique_suffix (p t : jsstring) :
  length p = 12%nat ->
  (checkId (p ++ t) = true <-> t = hex4 (crc p))
  /\ length (hex4 (crc p)) = 4%nat
  /\ forallb isLowerHex (hex4 (crc p)) = true.
Proof.
  intros Hp.
  pose proof (hex4_length (crc p) (crc_bound p)) as Hh.
  split; [|split; [exact Hh|]].
  - rewrite checkId_true_iff, length_app, Hp. split.
    + intros [Hl E]. rewrite slice_app_l, slice_app_r in E by lia. exact E.
    + intros ->. rewrite Hh. split; [reflexivity|].
      rewrite slice_app_l, slice_app_r by assumption. reflexivity.
  - apply forallb_forall. intros c Hc.
    pose proof (hex4_lower _ (crc_bound p)) as F.
    rewrite List.Forall_forall in F. apply F, Hc.
Qed.

Lemma checkId_unique_suffix_witness :
  (checkId (js "000000000000" ++ js "4686") = true
   <-> js "4686" = hex4 (crc (js "000000000000")))
  /\ length (hex4 (crc (js "000000000000"))) = 4%nat
  /\ forallb isLowerHex (hex4 (crc (js "000000000000"))) = true.
Proof.
  apply (checkId_unique_suffix (js "000000000000") (js "4686")). reflexivity.
Defined.

(** ** Where an extension starts *)

Lemma run_lits_only (w s : jsstring) :
  is_Some (RegExp.run (map RegExp.Lit w) s RegExp.init)
  <-> exists rest, s = w ++ rest.
Proof.
  split.
  - intros [m Hm]. rewrite <- (app_nil_r (map RegExp.Lit w)) in Hm.
    apply run_lits_inv in Hm as (rest & -> & _). eauto.
  - intros [rest ->]. rewrite <- (app_nil_r (map RegExp.Lit w)), run_lits.
    simpl. eauto.
Qed.

Lemma search_first (r : list RegExp.Item) (s : jsstring) :
  forall i k,
    RegExp.search r s i = Some k ->
    exists n, k = (i + n)%nat
              /\ is_Some (RegExp.run r (drop n s) RegExp.init)
              /\ forall j, (j < n)%nat ->
                           RegExp.run r (drop j s) RegExp.init = None.
Proof.
  induction s as [|x s IH]; intros i k H; simpl in H.
  - destruct (RegExp.run r [] RegExp.init) eqn:E; [|discriminate].
    injection H as <-. exists 0%nat. rewrite Nat.add_0_r.
    split; [reflexivity|]. split; [simpl; rewrite E; eauto|]. lia.
  - destruct (RegExp.run r (x :: s) RegExp.init) eqn:E.
    + injection H as <-. exists 0%nat. rewrite Nat.add_0_r.
      split; [reflexivity|]. split; [simpl; rewrite E; eauto|]. lia.
    + apply IH in H as (n & -> & Hn & Hmin). exists (S n).
      split; [lia|]. split; [exact Hn|].
      intros [|j] Hj; [exact E|]. apply Hmin. lia.
Qed.

Lemma search_nowhere (r : list RegExp.Item) (s : jsstring) :
  forall i, RegExp.search r s i = None ->
            forall n, RegExp.run r (drop n s) RegExp.init = None.
Proof.
  induction s as [|x s IH]; intros i H n; simpl in H.
  - destruct (RegExp.run r [] RegExp.init) eqn:E; [discriminate|].
    rewrite drop_nil. exact E.
  - destruct (RegExp.run r (x :: s) RegExp.init) eqn:E; [discriminate|].
    destruct n as [|n]; [exact E|]. simpl. apply (IH _ H).
Qed.

(** X21: the [start] of the tag extension is the index of the first [#] of
    the source, and that of the highlight extension the index of the first
    [==]; each is undefined exactly when the source holds no such marker. *)
Theorem start_first_marker (src : jsstring) :
  (forall n, TagExtension.start src = Some n ->
             (exists rest, drop n src = js "#" ++ rest)
             /\ forall j rest, (j < n)%nat -> drop j src <> js "#" ++ rest)
  /\ (TagExtension.start src = None ->
      forall j rest, drop j src <> js "#" ++ rest)
  /\ (forall n, HighlightExtension.start src = Some n ->
                (exists rest, drop n src = js "==" ++ rest)
                /\ forall j rest, (j < n)%nat -> drop j src <> js "==" ++ rest)
  /\ (HighlightExtension.start src = None ->
      forall j rest, drop j src <> js "==" ++ rest).
Proof.
  assert (G : forall (w : jsstring) (s : jsstring),
            RegExp.run (map RegExp.Lit w) s RegExp.init = None ->
            forall rest, s <> w ++ rest).
  { intros w s E rest ->.
    destruct (proj2 (run_lits_only w (w ++ rest))) as [m Hm]; [eauto|].
    congruence. }
  repeat split.
  - apply (search_first (map RegExp.Lit [35])) in H as (k & -> & Hk & _).
    apply run_lits_only in Hk. exact Hk.
  - intros j rest Hj.
    apply (search_first (map RegExp.Lit [35])) in H as (k & -> & _ & Hmin).
    apply (G [35]), Hmin. lia.
  - intros H j rest. apply (G [35]).
    apply (search_nowhere (map RegExp.Lit [35]) src 0 H).
  - apply (search_first (map RegExp.Lit [61; 61])) in H as (k & -> & Hk & _).
    apply run_lits_only in Hk. exact Hk.
  - intros j rest Hj.
    apply (search_first (map RegExp.Lit [61; 61])) in H as (k & -> & _ & Hmin).
    apply (G [61; 61]), Hmin. lia.
  - intros H j rest. apply (G [61; 61]).
    apply (search_nowhere (map RegExp.Lit [61; 61]) src 0 H).
Qed.

Lemma start_first_marker_witness :
  (exists rest, drop 4 (js "see #todo") = js "#" ++ rest)
  /\ forall j rest, (j < 4)%nat -> drop j (js "see #todo") <> js "#" ++ rest.
Proof.
  apply (start_first_marker (js "see #todo")). vm_compute. reflexivity.
Defined.

(** ** When the greedy patterns match *)

Lemma plusMore_greedy_sound (p : N -> bool)
    (k : jsstring -> RegExp.Match -> option RegExp.Match) (s : jsstring)
    (r : RegExp.Match) :
  forall m : RegExp.Match,
    RegExp.plusMore true p k s m = Some r ->
    exists a b, s = a ++ b /\ Forall (fun x => p x = true) a
                /\ k b (RegExp.pushes a m) = Some r.
Proof.
  induction s as [|x s IH]; intros m H; rewrite plusMore_greedy_eq in H.
  - exists [], []. auto.
  - destruct (p x) eqn:Px.
    + destruct (RegExp.plusMore true p k s (RegExp.push x m)) eqn:D.
      * injection H as <-. apply IH in D as (a & b & -> & Hp & Hk).
        exists (x :: a), b. auto.
      * exists [], (x :: s). auto.
    + exists [], (x :: s). auto.
Qed.

Lemma plusMore_greedy_complete (p : N -> bool)
    (k : jsstring -> RegExp.Match -> option RegExp.Match) (a b : jsstring) :
  forall m : RegExp.Match,
    Forall (fun x => p x = true) a ->
    is_Some (k b (RegExp.pushes a m)) ->
    is_Some (RegExp.plusMore true p k (a ++ b) m).
Proof.
  induction a as [|x a IH]; intros m Hp Hk; rewrite plusMore_greedy_eq.
  - simpl in *. destruct b as [|y b]; [exact Hk|].
    destruct (p y); [|exact Hk].
    destruct (RegExp.plusMore true p k b (RegExp.push y m)); [eauto|exact Hk].
  - apply Forall_cons in Hp as [Px Hp]. simpl. rewrite Px.
    destruct (IH (RegExp.push x m) Hp Hk) as [r ->]. eauto.
Qed.

(** X16: the tag tokenizer returns a token exactly when the source is a
    [#], a non-empty run of word characters and slashes, and one more
    character that is not a word character (a slash will do). *)
Theorem tag_matches_iff (src : jsstring) :
  is_Some (TagExtension.tokenizer src) <->
  exists name c rest,
    src = js "#" ++ name ++ c :: rest
    /\ name <> []
    /\ forallb (fun x => isWord x || (x =? 47)) name = true
    /\ isWord c = false.
Proof.
  assert (P : TagExtension.pattern
              = map RegExp.Lit [35]
                ++ [RegExp.Open;
                    RegExp.Plus true (fun c => isWord c || (c =? 47));
                    RegExp.Close;
                    RegExp.Class (fun c => negb (isWord c) || isSpace c)])
    by reflexivity.
  unfold TagExtension.tokenizer, RegExp.exec. rewrite P. split.
  - intros [t Ht].
    destruct (RegExp.run _ src RegExp.init) as [m|] eqn:E; [|discriminate].
    apply run_lits_inv in E as (s' & -> & E). rewrite run_group in E.
    destruct s' as [|x s']; [discriminate|].
    destruct (isWord x || (x =? 47)) eqn:Px; [|discriminate].
    apply plusMore_greedy_sound in E as (a & b & -> & Hp & Hk).
    rewrite run_close1 in Hk. destruct b as [|c rest]; [discriminate|].
    destruct (negb (isWord c) || isSpace c) eqn:Q; [|discriminate].
    exists (x :: a), c, rest. split; [reflexivity|]. split; [discriminate|].
    split.
    + simpl. rewrite Px. apply forallb_forall. intros y Hy.
      rewrite List.Forall_forall in Hp. auto.
    + destruct (isWord c) eqn:W; [|reflexivity].
      rewrite (tagChar_not_space c) in Q by (rewrite W; reflexivity).
      discriminate Q.
  - intros (name & c & rest & -> & Hne & Hp & Hc).
    change (js "#") with [35]. rewrite run_lits, run_group.
    destruct name as [|x name]; [contradiction|].
    simpl in Hp. apply andb_true_iff in Hp as [Px Hp].
    rewrite <- app_comm_cons. cbv beta iota. rewrite Px.
    destruct (plusMore_greedy_complete (fun c => isWord c || (c =? 47))
                (RegExp.run [RegExp.Close;
                             RegExp.Class (fun c => negb (isWord c) || isSpace c)])
                name (c :: rest)
                (RegExp.push x (RegExp.openGroup (RegExp.pushes [35] RegExp.init))))
      as [m ->]; [| |eauto].
    + apply List.Forall_forall. intros y Hy. rewrite forallb_forall in Hp. auto.
    + rewrite run_close1, Hc. simpl. eauto.
Qed.

Lemma tag_matches_iff_witness : is_Some (TagExtension.tokenizer (js "#a/b")).
Proof.
  apply (tag_matches_iff (js "#a/b")).
  exists (js "a"), 47, (js "b"). split; [reflexivity|].
  split; [discriminate|]. split; reflexivity.
Defined.

(** X18: the highlight tokenizer returns a token exactly when the source
    begins with [==], at least one character, and [==] again, with no line
    terminator before that closing [==]. *)
Theorem highlight_matches_iff (src : jsstring) :
  is_Some (HighlightExtension.tokenizer src) <->
  exists content rest,
    src = js "==" ++ content ++ js "==" ++ rest
    /\ content <> []
    /\ forallb (fun c => negb (isLineTerminator c)) content = true.
Proof.
  assert (P : HighlightExtension.pattern
              = map RegExp.Lit [61; 61]
                ++ [RegExp.Open;
                    RegExp.Plus true (fun c => negb (isLineTerminator c));
                    RegExp.Close; RegExp.Lit 61; RegExp.Lit 61])
    by reflexivity.
  unfold HighlightExtension.tokenizer, RegExp.exec. rewrite P. split.
  - intros [t Ht].
    destruct (RegExp.run _ src RegExp.init) as [m|] eqn:E; [|discriminate].
    apply run_lits_inv in E as (s' & -> & E). rewrite run_group in E.
    destruct s' as [|x s']; [discriminate|].
    destruct (negb (isLineTerminator x)) eqn:Px; [|discriminate].
    apply plusMore_greedy_sound in E as (a & b & -> & Hp & Hk).
    rewrite run_close2 in Hk.
    destruct (RegExp.closesWith 61 b) eqn:Hb; [|discriminate].
    apply closesWith_true in Hb as [rest ->].
    exists (x :: a), rest. split; [reflexivity|]. split; [discriminate|].
    simpl. rewrite Px. apply forallb_forall. intros y Hy.
    rewrite List.Forall_forall in Hp. auto.
  - intros (content & rest & -> & Hne & Hp).
    change (js "==") with [61; 61]. rewrite run_lits, run_group.
    destruct content as [|x content]; [contradiction|].
    simpl in Hp. apply andb_true_iff in Hp as [Px Hp].
    rewrite <- app_comm_cons. cbv beta iota. rewrite Px.
    destruct (plusMore_greedy_complete (fun c => negb (isLineTerminator c))
                (RegExp.run [RegExp.Close; RegExp.Lit 61; RegExp.Lit 61])
                content ([61; 61] ++ rest)
                (RegExp.push x (RegExp.openGroup (RegExp.pushes [61; 61] RegExp.init))))
      as [m ->]; [| |eauto].
    + apply List.Forall_forall. intros y Hy. rewrite forallb_forall in Hp. auto.
    + rewrite run_close2. simpl. eauto.
Qed.

Lemma highlight_matches_iff_witness :
  is_Some (HighlightExtension.tokenizer (js "==a==b== c")).
Proof.
  apply (highlight_matches_iff (js "==a==b== c")).
  exists (js "a"), (js "b== c"). split; [reflexivity|].
  split; [discriminate | reflexivity].
Defined.
